(** * kchain: the ABCI application of package [abci] (src/abci/main.go)

    A shallow embedding of [PersistentApplication] and its handlers
    ([DeliverTx], [CheckTx], [Commit], [Query], [InitChain], [BeginBlock],
    [EndBlock], [Validators], [updateValidator]) together with the
    properties the specification states about them.

    Conventions.
    - Go [string] and [[]byte] are both byte sequences and are modelled by
      [string]; a possibly-nil [[]byte] result is an [option string]
      ([None] is [nil]).
    - Go [int], [int64] and [uint32] values are modelled by [Z]; the
      [uint64] version counter of the tree wraps around at [2^64].
    - A handler is a computation over the application object that either
      returns a value and the application after the call, or panics. *)

From Stdlib Require Import ZArith String Ascii List DecimalString.
From Stdlib Require Import DecimalPos DecimalZ.
From stdpp Require Import gmap strings list sorting.

Local Open Scope string_scope.
Local Open Scope Z_scope.

(** ** Byte-string helpers of the Go standard library *)

(** [strconv.Itoa]: the decimal text of an integer. *)
Definition Itoa (i : Z) : string := NilZero.string_of_int (Z.to_int i).

(** [strings.HasPrefix]. *)
Definition HasPrefix (s prefix : string) : bool := String.prefix prefix s.

Definition hex_digit (n : N) : ascii :=
  (if n <? 10 then ascii_of_N (48 + n) else ascii_of_N (55 + n))%N.

(** The [%X] verb of [fmt] on a byte slice: two upper-case hexadecimal
    digits per byte. *)
Fixpoint fmtX (s : string) : string :=
  match s with
  | EmptyString => EmptyString
  | String c rest =>
      String (hex_digit (N_of_ascii c / 16))
        (String (hex_digit (N_of_ascii c mod 16)) (fmtX rest))
  end.

(** ** Response codes *)

(** [types.CodeTypeOK] of tendermint/abci: the zero value of a response's
    [Code] field. *)
Definition CodeTypeOK : Z := 0.

(** Modelled from the spec: package kchain/types/code is not among the
    sources. Section 6 names the code space (OK, EncodingError, BadNonce,
    Unauthorized) and section 4.3 calls the failure codes distinct; the
    numbers are those of the abci code space the package mirrors. Only the
    distinctness of the four codes and [Ok = CodeTypeOK] are ever used. *)
Module code.
Definition Ok : Z := 0.
Definition CodeTypeEncodingError : Z := 1.
Definition CodeTypeBadNonce : Z := 2.
Definition CodeTypeUnauthorized : Z := 3.
End code.

(** ** Messages of tendermint/abci/types *)

Module types.
(** [types.Validator]. *)
Record Validator := mkValidator { PubKey : string; Power : Z }.

(** [ResponseDeliverTx] and [ResponseCheckTx]: the fields the handlers
    set. *)
Record Response := mkResponse { Code : Z; Log : string }.

(** [ResponseDeliverTx.IsErr]. *)
Definition IsErr (r : Response) : bool := negb (Code r =? CodeTypeOK).

Record ResponseCommit := mkResponseCommit
  { CommitCode : Z; CommitData : string }.

Record RequestQuery := mkRequestQuery { Data : string; Path : string }.

Record ResponseQuery := mkResponseQuery
  { QCode : Z; QIndex : Z; QKey : option string;
    QValue : option string; QLog : string }.

(** The zero value [resQuery] starts from. *)
Definition emptyResponseQuery : ResponseQuery :=
  mkResponseQuery 0 0 None None "".
End types.

Global Instance Validator_eq_dec : EqDecision types.Validator.
Proof. solve_decision. Defined.

(** ** The versioned tree of tendermint/iavl *)

(** The root hash of a tree, as a function of its contents. *)
Class TreeHash := rootHash : gmap string string → string.

Module iavl.
(** [VersionedTree]: the working tree, the latest saved version and the
    saved versions. *)
Record VersionedTree := mkTree
  { tree : gmap string string;
    latestVersion : Z;
    versions : gmap Z (gmap string string) }.

Definition key_le (a b : string * string) : Prop :=
  String.leb a.1 b.1 = true.

Global Instance key_le_dec a b : Decision (key_le a b).
Proof. unfold key_le. solve_decision. Defined.

(** The key/value pairs in ascending key order ([bytes.Compare]). *)
Definition items (t : VersionedTree) : list (string * string) :=
  merge_sort key_le (map_to_list (tree t)).

(** [Get]: the index of the key in key order (for an absent key, the
    index it would take) and its value, [nil] when absent. *)
Definition Get (key : string) (t : VersionedTree) : Z * option string :=
  (Z.of_nat (length (filter (λ kv, String.ltb kv.1 key = true)
                            (map_to_list (tree t)))),
   tree t !! key).

Definition Has (key : string) (t : VersionedTree) : bool :=
  bool_decide (is_Some (tree t !! key)).

Definition Set_ (key value : string) (t : VersionedTree) : VersionedTree :=
  mkTree (<[key := value]> (tree t)) (latestVersion t) (versions t).

Definition Remove (key : string) (t : VersionedTree) : VersionedTree :=
  mkTree (delete key (tree t)) (latestVersion t) (versions t).

Definition LatestVersion (t : VersionedTree) : Z := latestVersion t.

Definition Hash `{TreeHash} (t : VersionedTree) : string :=
  rootHash (tree t).

(** [SaveVersion]: refuses a version that was already saved, an empty
    tree (nil root) and version zero; otherwise records the working tree
    under [version] and returns its root hash. *)
Definition SaveVersion `{TreeHash} (version : Z) (t : VersionedTree)
  : (string * VersionedTree) + string :=
  if bool_decide (is_Some (versions t !! version)) then
    inr "version was already saved"
  else if bool_decide (tree t = ∅) then
    inr "the root is nil"
  else if version =? 0 then
    inr "version must be greater than zero"
  else
    inl (rootHash (tree t),
         mkTree (tree t) version (<[version := tree t]> (versions t))).
End iavl.

(** ** Transactions *)

(** Modelled from the spec: the constants of kchain/types/cnst are not
    among the sources. Section 3 makes the type of a transaction a closed
    tag; the handlers switch on [cnst.DbSet], [cnst.AccountSet] and
    [cnst.ValidatorSet], and every other tag takes the [default] branch. *)
Inductive TxType := DbSet | AccountSet | ValidatorSet | Other.

Global Instance TxType_eq_dec : EqDecision TxType.
Proof. solve_decision. Defined.

(** Modelled from the spec: [Transaction] is declared in a file of package
    abci that is not among the sources. The handlers read its fields
    [Type], [Signature] and [SignPubKey]; section 3 adds the raw payload
    it carries, here [Body]. *)
Record Transaction := mkTransaction
  { Type_ : TxType; Body : string; SignPubKey : string; Signature : string }.

Module ktx.
(** [ktx.Db], the key/value request [Query] decodes; only [Key] is read. *)
Record Db := mkDb { Key : string; Value : string }.

(** The account [ToAccount] decodes: [PubKey] is concatenated to a string
    prefix and [Power] goes through [strconv.Itoa]. *)
Record Account := mkAccount { PubKey : string; Power : Z }.
End ktx.

(** The declarations the handlers use whose definitions are not among the
    sources: the methods of [Transaction] and the two key prefixes (package
    abci), the constants of kchain/types/cnst, the package-level [json]
    decoder, and the message codec of tendermint/abci/types. A method that
    returns [(value, error)] is a pair; [None] is the nil error. *)
Class Externals := {
  FromBytes : string → Transaction * option string;
  CheckDb : Transaction → option string;
  DbSave : Transaction → iavl.VersionedTree → iavl.VersionedTree;
  ToAccount : Transaction → ktx.Account * option string;
  ToValidator : Transaction → types.Validator * option string;
  ValidatorSetChangePrefix : string;
  AccountSetChangePrefix : string;
  cnst_AccountPrefix : string;
  cnst_DbGet : string;
  json_Unmarshal : string → ktx.Db + string;
  WriteMessage : types.Validator → string + string;
  ReadMessage : string → types.Validator + string;
  Externals_hash :: TreeHash
}.

(** ** The application object *)

(** [PersistentApplication]; a nil [GenesisValidators] map is [None]. *)
Record PersistentApplication := mkApp
  { state : iavl.VersionedTree;
    ValUpdates : list types.Validator;
    GenesisValidators : option (gmap string Z) }.

(** [NewPersistentApplication], given the tree loaded from the database:
    the two other fields are left at their zero values. *)
Definition NewPersistentApplication (stateTree : iavl.VersionedTree)
  : PersistentApplication :=
  mkApp stateTree [] None.

(** ** Handlers as computations over the application *)

Inductive Result (A : Type) : Type :=
| Return (a : A) (app : PersistentApplication)
| Panic (msg : string).
Arguments Return {A} a app.
Arguments Panic {A} msg.

Definition M (A : Type) : Type := PersistentApplication → Result A.

Global Instance M_ret : MRet M := λ A a app, Return a app.

Global Instance M_bind : MBind M := λ A B k m app,
  match m app with
  | Return a app' => k a app'
  | Panic msg => Panic msg
  end.

Definition panic {A} (msg : string) : M A := λ _, Panic msg.

Definition gets {A} (f : PersistentApplication → A) : M A :=
  λ app, Return (f app) app.

Definition modify (f : PersistentApplication → PersistentApplication)
  : M unit :=
  λ app, Return tt (f app).

Definition with_state (f : iavl.VersionedTree → iavl.VersionedTree)
  (app : PersistentApplication) : PersistentApplication :=
  mkApp (f (state app)) (ValUpdates app) (GenesisValidators app).

(** [app.state.Get], [Has], [Set], [Remove]. *)
Definition state_Get (key : string) : M (Z * option string) :=
  gets (λ app, iavl.Get key (state app)).

Definition state_Has (key : string) : M bool :=
  gets (λ app, iavl.Has key (state app)).

Definition state_Set (key value : string) : M unit :=
  modify (with_state (iavl.Set_ key value)).

Definition state_Remove (key : string) : M unit :=
  modify (with_state (iavl.Remove key)).

(** [app.ValUpdates = append(app.ValUpdates, v)]. *)
Definition append_ValUpdates (v : types.Validator) : M unit :=
  modify (λ app,
    mkApp (state app) (ValUpdates app ++ [v]) (GenesisValidators app)).

(** Reading [app.GenesisValidators[k]]: zero for an absent key, and for a
    nil map. *)
Definition genesis_power (app : PersistentApplication) (k : string) : Z :=
  match GenesisValidators app with
  | Some m => default 0 (m !! k)
  | None => 0
  end.

(** Writing [app.GenesisValidators[k] = p]: panics on a nil map. *)
Definition genesis_assign (k : string) (p : Z) : M unit :=
  λ app,
    match GenesisValidators app with
    | Some m => Return tt (mkApp (state app) (ValUpdates app) (Some (<[k := p]> m)))
    | None => Panic "assignment to entry in nil map"
    end.

Definition ok_response : types.Response := types.mkResponse code.Ok "".

Definition encoding_error (log : string) : types.Response :=
  types.mkResponse code.CodeTypeEncodingError log.

Section Handlers.
Context `{Externals}.

Definition isValidatorTx (tx : string) : bool :=
  HasPrefix tx ValidatorSetChangePrefix.

(** [DeliverTx]. A [Some] from the inner block is an early [return]. *)
Definition DeliverTx (txBytes : string) : M types.Response :=
  let tx1 := (FromBytes txBytes).1 in
  match Type_ tx1 with
  | DbSet =>
      let _ := CheckDb tx1 in
      _ ← modify (with_state (DbSave tx1));
      mret ok_response
  | AccountSet =>
      let account := (ToAccount tx1).1 in
      _ ← state_Set (cnst_AccountPrefix +:+ ktx.PubKey account)
            (Itoa (ktx.Power account));
      mret ok_response
  | ValidatorSet =>
      let val := (ToValidator tx1).1 in
      let key := ValidatorSetChangePrefix +:+ types.PubKey val in
      early ←
        (if types.Power val =? 0 then
           has ← state_Has key;
           if negb has then
             mret (Some (types.mkResponse code.CodeTypeUnauthorized
                    ("Cannot remove non-existent validator " +:+ fmtX key)))
           else
             _ ← state_Remove key; mret None
         else
           match WriteMessage
                   (types.mkValidator (types.PubKey val) (types.Power val))
           with
           | inr err =>
               mret (Some (encoding_error
                             ("Error encoding validator: " +:+ err)))
           | inl value => _ ← state_Set key value; mret None
           end);
      match early with
      | Some res => mret res
      | None =>
          _ ← append_ValUpdates
                (types.mkValidator (types.PubKey val) (types.Power val));
          mret ok_response
      end
  | Other => mret (encoding_error "unknown transaction type")
  end.

(** [CheckTx]. Every rejection carries [CodeTypeEncodingError]. *)
Definition CheckTx (txBytes : string) : M types.Response :=
  let (tx1, err) := FromBytes txBytes in
  match err with
  | Some e => mret (encoding_error e)
  | None =>
      early ←
        (if negb (String.eqb (Signature tx1) "") then
           r ← state_Get (AccountSetChangePrefix +:+ SignPubKey tx1);
           if r.1 =? 0 then
             mret (Some (encoding_error "节点账户不存在"))
           else mret None
         else mret None);
      match early with
      | Some res => mret res
      | None =>
          match Type_ tx1 with
          | DbSet =>
              match CheckDb tx1 with
              | Some e => mret (encoding_error e)
              | None => mret ok_response
              end
          | AccountSet =>
              g ← gets (λ app, genesis_power app (SignPubKey tx1));
              if g =? 0 then mret (encoding_error "验证节点错误")
              else
                match (ToAccount tx1).2 with
                | Some e => mret (encoding_error e)
                | None => mret ok_response
                end
          | ValidatorSet =>
              g ← gets (λ app, genesis_power app (SignPubKey tx1));
              if g =? 0 then mret (encoding_error "验证节点错误")
              else
                match (ToValidator tx1).2 with
                | Some e => mret (encoding_error e)
                | None => mret ok_response
                end
          | Other => mret (encoding_error "unknown transaction type")
          end
      end
  end.

(** [Commit]: [height] is computed on [uint64]. *)
Definition Commit : M types.ResponseCommit :=
  st ← gets state;
  let height := (iavl.LatestVersion st + 1) mod 2 ^ 64 in
  match iavl.SaveVersion height st with
  | inr err => panic err
  | inl (appHash, st') =>
      _ ← modify (with_state (λ _, st'));
      mret (types.mkResponseCommit code.Ok appHash)
  end.

(** [Query]. The named result [resQuery] starts at its zero value. *)
Definition Query (reqQuery : types.RequestQuery) : M types.ResponseQuery :=
  let data := types.Data reqQuery in
  let path := types.Path reqQuery in
  let resQuery := types.emptyResponseQuery in
  if String.eqb path cnst_DbGet then
    match json_Unmarshal data with
    | inr err =>
        mret (types.mkResponseQuery code.CodeTypeBadNonce
                (types.QIndex resQuery) (types.QKey resQuery)
                (types.QValue resQuery) err)
    | inl db =>
        r ← state_Get (ktx.Key db);
        let (index, value) := r : Z * option string in
        mret (types.mkResponseQuery (types.QCode resQuery) index
                (Some (ktx.Key db)) value
                (match value with
                 | Some _ => "exists"
                 | None => "does not exist"
                 end))
    end
  else
    mret (types.mkResponseQuery code.CodeTypeBadNonce
            (types.QIndex resQuery) (types.QKey resQuery)
            (types.QValue resQuery) "wrong path").

(** [updateValidator]: add, update, or remove a validator. *)
Definition updateValidator (v : types.Validator) : M types.Response :=
  let key := "val:" +:+ types.PubKey v in
  early ←
    (if types.Power v =? 0 then
       has ← state_Has key;
       if negb has then
         mret (Some (types.mkResponse code.CodeTypeUnauthorized
                ("Cannot remove non-existent validator " +:+ fmtX key)))
       else
         _ ← state_Remove key; mret None
     else
       match WriteMessage v with
       | inr err =>
           mret (Some (encoding_error
                         ("Error encoding validator: " +:+ err)))
       | inl value => _ ← state_Set key value; mret None
       end);
  match early with
  | Some res => mret res
  | None => _ ← append_ValUpdates v; mret ok_response
  end.

(** [InitChain]: the loop over [req.Validators]. *)
Fixpoint InitChain (validators : list types.Validator) : M unit :=
  match validators with
  | [] => mret tt
  | v :: rest =>
      r ← updateValidator v;
      _ ← (if types.IsErr r then mret tt
           else genesis_assign (types.PubKey v) (types.Power v));
      InitChain rest
  end.

(** [BeginBlock]: both fields are replaced by fresh empty values. *)
Definition BeginBlock : M unit :=
  modify (λ app, mkApp (state app) [] (Some ∅)).

(** [EndBlock]: hands out [app.ValUpdates]. *)
Definition EndBlock : M (list types.Validator) := gets ValUpdates.

(** The callback [Validators] passes to [Iterate], run over the pairs in
    key order; it never asks the iteration to stop. *)
Fixpoint Validators_iterate (kvs : list (string * string))
  (validators : list types.Validator) : M (list types.Validator) :=
  match kvs with
  | [] => mret validators
  | (key, value) :: rest =>
      if isValidatorTx key then
        match ReadMessage value with
        | inr err => panic err
        | inl validator => Validators_iterate rest (validators ++ [validator])
        end
      else Validators_iterate rest validators
  end.

(** [Validators]. *)
Definition Validators : M (list types.Validator) :=
  st ← gets state;
  Validators_iterate (iavl.items st) [].

(** What the enumeration amounts to on a list of pairs: the decoded
    values of the pairs whose key has the validator prefix, or the first
    decoding error. Used to reason about [Validators_iterate]. *)
Fixpoint decode_validators (kvs : list (string * string))
  : list types.Validator + string :=
  match kvs with
  | [] => inl []
  | (key, value) :: rest =>
      if isValidatorTx key then
        match ReadMessage value with
        | inr err => inr err
        | inl validator =>
            match decode_validators rest with
            | inl vs => inl (validator :: vs)
            | inr err => inr err
            end
        end
      else decode_validators rest
  end.
End Handlers.

(** ** A concrete instance of the absent declarations

    The handlers are parametric in [Externals]. To run them on concrete
    payloads, this instance fixes a textual payload
    [tag|signer|signature|body] with the bodies [key=value] (tag [db]) and
    [pubkey/power] (tags [account] and [validator]), a validator message
    written as [power/pubkey], and a query request [key=<key>]. *)
Module Sample.
(** Splits at the first occurrence of [sep]. *)
Fixpoint cut (sep : ascii) (s : string) : option (string * string) :=
  match s with
  | EmptyString => None
  | String c rest =>
      if Ascii.eqb c sep then Some (EmptyString, rest)
      else
        match cut sep rest with
        | Some (l, r) => Some (String c l, r)
        | None => None
        end
  end.

Fixpoint digits (s : string) (acc : Z) : option Z :=
  match s with
  | EmptyString => Some acc
  | String c rest =>
      let n := Z.of_N (N_of_ascii c) in
      if (48 <=? n) && (n <=? 57) then digits rest (10 * acc + (n - 48))
      else None
  end.

Definition parse_int (s : string) : option Z :=
  match s with
  | EmptyString => None
  | String "-" rest =>
      match rest with
      | EmptyString => None
      | _ => Z.opp <$> digits rest 0
      end
  | _ => digits s 0
  end.

Definition tag_of (s : string) : TxType :=
  if String.eqb s "db" then DbSet
  else if String.eqb s "account" then AccountSet
  else if String.eqb s "validator" then ValidatorSet
  else Other.

Definition zero_tx : Transaction := mkTransaction Other "" "" "".

Definition FromBytes (txBytes : string) : Transaction * option string :=
  match cut "|" txBytes with
  | Some (tag, r1) =>
      match cut "|" r1 with
      | Some (signer, r2) =>
          match cut "|" r2 with
          | Some (sig, body) =>
              (mkTransaction (tag_of tag) body signer sig, None)
          | None => (zero_tx, Some "malformed transaction")
          end
      | None => (zero_tx, Some "malformed transaction")
      end
  | None => (zero_tx, Some "malformed transaction")
  end.

Definition CheckDb (tx : Transaction) : option string :=
  match cut "=" (Body tx) with
  | Some _ => None
  | None => Some "expected key=value"
  end.

Definition DbSave (tx : Transaction) (t : iavl.VersionedTree)
  : iavl.VersionedTree :=
  match cut "=" (Body tx) with
  | Some (k, v) => iavl.Set_ k v t
  | None => iavl.Set_ (Body tx) "" t
  end.

Definition key_power (body : string) : option (string * Z) :=
  match cut "/" body with
  | Some (k, p) => (λ n, (k, n)) <$> parse_int p
  | None => None
  end.

Definition ToAccount (tx : Transaction) : ktx.Account * option string :=
  match key_power (Body tx) with
  | Some (k, p) => (ktx.mkAccount k p, None)
  | None => (ktx.mkAccount "" 0, Some "expected pubkey/power")
  end.

Definition ToValidator (tx : Transaction)
  : types.Validator * option string :=
  match key_power (Body tx) with
  | Some (k, p) => (types.mkValidator k p, None)
  | None => (types.mkValidator "" 0, Some "expected pubkey/power")
  end.

Definition json_Unmarshal (data : string) : ktx.Db + string :=
  match cut "=" data with
  | Some (field, k) =>
      if String.eqb field "key" then inl (ktx.mkDb k "")
      else inr "unknown field"
  | None => inr "unexpected end of input"
  end.

Definition WriteMessage (v : types.Validator) : string + string :=
  inl (Itoa (types.Power v) +:+ "/" +:+ types.PubKey v).

Definition ReadMessage (bz : string) : types.Validator + string :=
  match cut "/" bz with
  | Some (p, k) =>
      match parse_int p with
      | Some n => inl (types.mkValidator k n)
      | None => inr "bad power"
      end
  | None => inr "unexpected end of message"
  end.

(** The contents in key order, each pair as [key=value;]. *)
Definition rootHash (m : gmap string string) : string :=
  foldr (λ kv acc, kv.1 +:+ "=" +:+ kv.2 +:+ ";" +:+ acc) ""
    (merge_sort iavl.key_le (map_to_list m)).

Definition externals : Externals :=
  Build_Externals FromBytes CheckDb DbSave ToAccount ToValidator
    "val:" "account:" "account:" "db_get"
    json_Unmarshal WriteMessage ReadMessage rootHash.

Definition tree_of (kvs : list (string * string)) : iavl.VersionedTree :=
  iavl.mkTree (list_to_map kvs) 0 ∅.
End Sample.

(** ** The other functions of main.go *)

(** The double quote, for the text [Info] formats. *)
Definition dquote : string := String (ascii_of_nat 34) EmptyString.

(** The conversion [int64(x)] of a [uint64]. *)
Definition int64_of_uint64 (x : Z) : Z :=
  if x <? 2 ^ 63 then x else x - 2 ^ 64.

(** [Size] of the tree: the number of keys. *)
Definition iavl_Size (t : iavl.VersionedTree) : Z :=
  Z.of_nat (size (iavl.tree t)).

(** [types.ResponseInfo]: the fields [Info] sets. *)
Record ResponseInfo := mkResponseInfo
  { InfoData : string; LastBlockHeight : Z; LastBlockAppHash : string }.

(** [strings.Split] with a separator of one byte. *)
Fixpoint Split (s : string) (sep : ascii) : list string :=
  match s with
  | EmptyString => [EmptyString]
  | String c rest =>
      if Ascii.eqb c sep then EmptyString :: Split rest sep
      else
        match Split rest sep with
        | w :: ws => String c w :: ws
        | [] => [String c EmptyString]
        end
  end.

(** Whether the byte [c] occurs in [s]. *)
Fixpoint has_byte (c : ascii) (s : string) : bool :=
  match s with
  | EmptyString => false
  | String c' rest => Ascii.eqb c' c || has_byte c rest
  end.

(** The value of a hexadecimal digit, of either case. *)
Definition fromHexChar (c : ascii) : option N :=
  let n := N_of_ascii c in
  (if (48 <=? n) && (n <=? 57) then Some (n - 48)
   else if (97 <=? n) && (n <=? 102) then Some (n - 97 + 10)
   else if (65 <=? n) && (n <=? 70) then Some (n - 65 + 10)
   else None)%N.

(** [hex.DecodeString]: [None] on a byte that is no hexadecimal digit and
    on an odd length. *)
Fixpoint DecodeString (s : string) : option string :=
  match s with
  | EmptyString => Some EmptyString
  | String _ EmptyString => None
  | String a (String b rest) =>
      match fromHexChar a, fromHexChar b, DecodeString rest with
      | Some x, Some y, Some r => Some (String (ascii_of_N (16 * x + y)) r)
      | _, _, _ => None
      end
  end.

(** [strconv.ParseInt(s, 10, 64)]: an optional sign, then at least one
    decimal digit and nothing else; [None] also when the value does not
    fit [int64]. *)
Definition ParseInt (s : string) : option Z :=
  match s with
  | EmptyString => None
  | String c rest =>
      let neg := Ascii.eqb c "-" in
      let body := if Ascii.eqb c "+" || neg then rest else s in
      match body with
      | EmptyString => None
      | _ =>
          match NilEmpty.uint_of_string body with
          | Some d =>
              let n := Z.of_uint d in
              let v := if neg then - n else n in
              if (- 2 ^ 63 <=? v) && (v <? 2 ^ 63) then Some v else None
          | None => None
          end
      end
  end.

(** The slice expression [tx[n:]] of a string that is long enough. *)
Fixpoint string_drop (n : nat) (s : string) : string :=
  match n, s with
  | O, _ => s
  | S n', String _ rest => string_drop n' rest
  | S _, EmptyString => EmptyString
  end.

(** The [%v] verb of [fmt] on a slice of strings. *)
Definition fmt_v (l : list string) : string :=
  "[" +:+ String.concat " " l +:+ "]".

(** [MakeValSetChangeTx]. *)
Definition MakeValSetChangeTx (pubkey : string) (power : Z) : string :=
  "val:" +:+ fmtX pubkey +:+ "/" +:+ Itoa power.

(** [crypto.PubKeyFromBytes] of tendermint/go-crypto, of which only the
    error is used; [None] is the nil error. *)
Class GoCrypto := PubKeyFromBytes : string → option string.

Section MoreHandlers.
Context `{Externals} `{GoCrypto}.

(** [Info]. *)
Definition Info : M ResponseInfo :=
  st ← gets state;
  mret (mkResponseInfo
          ("{" +:+ dquote +:+ "size" +:+ dquote +:+ ":"
           +:+ Itoa (iavl_Size st) +:+ "}")
          (int64_of_uint64 (iavl.LatestVersion st))
          (iavl.Hash st)).

(** [SetOption]. *)
Definition SetOption : M Z := mret CodeTypeOK.

(** [execValidatorTx]. The slice [tx[len(prefix):]] panics on a shorter
    [tx]. *)
Definition execValidatorTx (tx : string) : M types.Response :=
  if (String.length tx <? String.length ValidatorSetChangePrefix)%nat then
    panic "slice bounds out of range"
  else
    let tx := string_drop (String.length ValidatorSetChangePrefix) tx in
    let pubKeyAndPower := Split tx "/" in
    match pubKeyAndPower with
    | [pubkeyS; powerS] =>
        match DecodeString pubkeyS with
        | None =>
            mret (encoding_error
                    ("Pubkey (" +:+ pubkeyS +:+ ") is invalid hex"))
        | Some pubkey =>
            match PubKeyFromBytes pubkey with
            | Some _ =>
                mret (encoding_error
                        ("Pubkey (" +:+ fmtX pubkey
                         +:+ ") is invalid go-crypto encoded"))
            | None =>
                match ParseInt powerS with
                | None =>
                    mret (encoding_error
                            ("Power (" +:+ powerS +:+ ") is not an int"))
                | Some power =>
                    updateValidator (types.mkValidator pubkey power)
                end
            end
        end
    | _ =>
        mret (encoding_error
                ("Expected 'pubkey/power'. Got " +:+ fmt_v pubKeyAndPower))
    end.

(** The transactions of a block, delivered in order. *)
Fixpoint DeliverTxs (txs : list string) : M (list types.Response) :=
  match txs with
  | [] => mret []
  | tx :: rest =>
      r ← DeliverTx tx;
      rs ← DeliverTxs rest;
      mret (r :: rs)
  end.
End MoreHandlers.

(** The saved versions of a tree lie between 1 and the latest version,
    which fits [uint64]. *)
Definition versions_ok (t : iavl.VersionedTree) : Prop :=
  0 ≤ iavl.latestVersion t < 2 ^ 64
  ∧ ∀ v, is_Some (iavl.versions t !! v) → 0 < v ≤ iavl.latestVersion t.

(** What a delivered transaction adds to [ValUpdates], given the response
    it got: the record of a ValidatorSet transaction answered with OK, and
    nothing otherwise. *)
Definition recorded_change `{Externals} (txBytes : string)
    (res : types.Response) : list types.Validator :=
  let tx := (FromBytes txBytes).1 in
  if bool_decide (Type_ tx = ValidatorSet) && (types.Code res =? code.Ok)
  then [(ToValidator tx).1] else [].

(** [updateValidator] goes through with [v] on the tree [t]: a removal
    finds its record, an addition is encoded. *)
Definition accepted `{Externals} (t : iavl.VersionedTree)
    (v : types.Validator) : Prop :=
  (types.Power v = 0 ∧ is_Some (iavl.tree t !! ("val:" +:+ types.PubKey v)))
  ∨ (types.Power v ≠ 0 ∧ ∃ bz, WriteMessage v = inl bz).

(** ** Sample inputs *)

(** A store holding one plain key and the account of ["signer"]. *)
Definition sample_tree : iavl.VersionedTree :=
  Sample.tree_of [("a", "1"); ("account:signer", "5")].

(** An application whose genesis map is empty but not nil. *)
Definition sample_app : PersistentApplication :=
  mkApp sample_tree [] (Some ∅).

(** A payload of type [account], signed by ["signer"], whose account
    exists in [sample_tree] but who is not in the genesis map. *)
Definition sample_account_tx : string := "account|signer|sig|K/5".

(** A genesis validator. *)
Definition V1 : types.Validator := types.mkValidator "V1" 10.

(** A validator change that adds ["K"] with power 5, and the one that
    removes it. *)
Definition sample_add_tx : string := "validator|||K/5".
Definition sample_remove_tx : string := "validator|||K/0".

(** [sample_app] after [sample_add_tx] was delivered. *)
Definition sample_app_added : PersistentApplication :=
  mkApp (iavl.Set_ "val:K" "5/K" sample_tree)
        [types.mkValidator "K" 5] (Some ∅).

(** A fresh application over an empty store. *)
Definition empty_app : PersistentApplication :=
  NewPersistentApplication (Sample.tree_of []).

(** A payload of an unrecognised type that carries a signature. *)
Definition sample_unknown_tx : string := "bogus|ghost|sig|x".

(** An application in which ["V1"] is a genesis validator with an
    account, and an account payload of that signer whose body does not
    decode. *)
Definition sample_app_genesis : PersistentApplication :=
  mkApp (Sample.tree_of [("a", "1"); ("account:V1", "10")]) []
        (Some {["V1" := 10]}).
Definition sample_bad_account_tx : string := "account|V1|sig|nonsense".

(** ** Transactions that differ in their signer fields only *)

Definition same_type_and_body (t1 t2 : Transaction) : Prop :=
  Type_ t1 = Type_ t2 ∧ Body t1 = Body t2.

(** The body decoders of [Transaction], which are not among the sources,
    read the type and the body only. *)
Definition decoders_read_body_only `{Externals} : Prop :=
  ∀ t1 t2, same_type_and_body t1 t2 →
    ToAccount t1 = ToAccount t2
    ∧ ToValidator t1 = ToValidator t2
    ∧ ∀ st, DbSave t1 st = DbSave t2 st.

(** * Properties *)

(** Unfolds the plumbing of [M]. *)
Ltac run :=
  cbv [mbind M_bind mret M_ret gets modify panic state_Get state_Has
       state_Set state_Remove append_ValUpdates genesis_assign] in *.

Lemma HasPrefix_app (p s : string) : HasPrefix (p +:+ s) p = true.
Proof.
  unfold HasPrefix. induction p as [|c p IH]; simpl.
  - by destruct s.
  - destruct (ascii_dec c c); [done | congruence].
Qed.

(** ** CheckTx is read-only *)

(** C1. For every payload, well-formed or not, [CheckTx] returns with the
    application object it was called on: the store contents, the pending
    validator updates (and the genesis map) are unchanged, so a [Commit]
    that follows produces exactly what it would have produced without the
    [CheckTx]. *)
Theorem CheckTx_read_only `{Externals}
    (txBytes : string) (app : PersistentApplication) :
  ∃ res : types.Response,
    CheckTx txBytes app = Return res app
    ∧ (CheckTx txBytes ≫= λ _, Commit) app = Commit app.
Proof.
  assert (Hret : ∃ res, CheckTx txBytes app = Return res app).
  { unfold CheckTx. run.
    destruct (FromBytes txBytes) as [tx1 [e|]]; [by eexists |].
    repeat (case_match; simplify_eq/=); by eexists. }
  destruct Hret as [res Hres]. exists res. split; [done |].
  unfold mbind at 1, M_bind at 1. by rewrite Hres.
Qed.

(** ** Commit *)

Lemma SaveVersion_inl `{TreeHash} (version : Z) (t t' : iavl.VersionedTree)
    (hash : string) :
  iavl.SaveVersion version t = inl (hash, t') →
  version ≠ 0
  ∧ hash = rootHash (iavl.tree t)
  ∧ t' = iavl.mkTree (iavl.tree t) version
           (<[version := iavl.tree t]> (iavl.versions t)).
Proof.
  unfold iavl.SaveVersion. repeat case_match; try done.
  intros [= <- <-]. split; [lia | done].
Qed.

(** C2. [Commit] saves version [LatestVersion + 1]. When [SaveVersion]
    fails, [Commit] panics with that error; otherwise it returns code OK and
    the root hash of the saved tree, the latest version has advanced by
    exactly one and the contents are those that were saved. It does return
    whenever the tree is not empty, the next version is not yet saved and
    the counter does not overflow. *)
Theorem Commit_advances_by_one `{Externals} (app : PersistentApplication) :
  0 ≤ iavl.LatestVersion (state app) < 2 ^ 64 →
  let next := iavl.LatestVersion (state app) + 1 in
  match Commit app with
  | Return res app' =>
      iavl.LatestVersion (state app') = next
      ∧ types.CommitCode res = code.Ok
      ∧ types.CommitData res = iavl.Hash (state app')
      ∧ iavl.tree (state app') = iavl.tree (state app)
      ∧ iavl.versions (state app') !! next = Some (iavl.tree (state app))
      ∧ ValUpdates app' = ValUpdates app
      ∧ GenesisValidators app' = GenesisValidators app
  | Panic msg =>
      iavl.SaveVersion (next mod 2 ^ 64) (state app) = inr msg
  end
  ∧ (iavl.tree (state app) ≠ ∅ →
     iavl.versions (state app) !! next = None →
     next < 2 ^ 64 →
     ∃ res app', Commit app = Return res app').
Proof.
  intros Hrange next. unfold Commit. run. split.
  - destruct (iavl.SaveVersion _ _) as [[hash st']|msg] eqn:Hsave; [|done].
    apply SaveVersion_inl in Hsave as (Hnz & -> & ->). simpl.
    unfold iavl.LatestVersion in *. fold next in Hnz |- *.
    assert (next mod 2 ^ 64 = next) as Hmod.
    { destruct (decide (next = 2 ^ 64)) as [Heq|Hne].
      - rewrite Heq, Z_mod_same_full in Hnz. done.
      - apply Z.mod_small. unfold next. lia. }
    rewrite Hmod. repeat split; try done.
    by rewrite lookup_insert_eq.
  - intros Hne Hfresh Hlt.
    assert (next mod 2 ^ 64 = next) as Hmod.
    { apply Z.mod_small. unfold next, iavl.LatestVersion in *. lia. }
    fold next. rewrite Hmod. unfold iavl.SaveVersion.
    rewrite bool_decide_eq_false_2 by (rewrite Hfresh; by intros [? ?]).
    rewrite bool_decide_eq_false_2 by done.
    destruct (next =? 0) eqn:Hz.
    + apply Z.eqb_eq in Hz. unfold next, iavl.LatestVersion in *. lia.
    + by eexists _, _.
Qed.

Lemma Commit_advances_by_one_witness :
  0 ≤ iavl.LatestVersion (state sample_app) < 2 ^ 64
  ∧ ∃ res app', @Commit Sample.externals sample_app = Return res app'
      ∧ iavl.LatestVersion (state app') = 1.
Proof.
  assert (Hr : 0 ≤ iavl.LatestVersion (state sample_app) < 2 ^ 64)
    by (vm_compute; split; congruence).
  split; [exact Hr |].
  pose proof (@Commit_advances_by_one Sample.externals sample_app Hr) as [Hc _].
  destruct (@Commit Sample.externals sample_app) as [res app'|msg] eqn:E.
  - exists res, app'. split; [done |]. by destruct Hc as [-> _].
  - vm_compute in E. discriminate E.
Defined.

(** ** CheckTx and the genesis authorization set *)

(** C3, as stated, fails: on [sample_app] the signer of
    [sample_account_tx] is not in the genesis map, and [CheckTx] rejects
    the transaction with [CodeTypeEncodingError], which is not
    [CodeTypeUnauthorized]. *)
Lemma CheckTx_non_genesis_signer_not_Unauthorized :
  Type_ (Sample.FromBytes sample_account_tx).1 = AccountSet
  ∧ genesis_power sample_app
      (SignPubKey (Sample.FromBytes sample_account_tx).1) = 0
  ∧ @CheckTx Sample.externals sample_account_tx sample_app
    = Return (encoding_error "验证节点错误") sample_app
  ∧ types.Code (encoding_error "验证节点错误") ≠ code.CodeTypeUnauthorized.
Proof. vm_compute. repeat split; congruence. Qed.

(** C3, amended. For every AccountSet or ValidatorSet transaction whose
    signer has no (non-zero) entry in the genesis map, [CheckTx] rejects it
    with [CodeTypeEncodingError] and changes nothing; when the payload
    parsed without error and the signer-account check did not reject it
    first, the log is the genesis-check message. *)
Theorem CheckTx_non_genesis_signer_EncodingError `{Externals}
    (txBytes : string) (app : PersistentApplication) :
  let tx := (FromBytes txBytes).1 in
  Type_ tx = AccountSet ∨ Type_ tx = ValidatorSet →
  genesis_power app (SignPubKey tx) = 0 →
  ∃ log : string,
    CheckTx txBytes app
    = Return (types.mkResponse code.CodeTypeEncodingError log) app
    ∧ ((FromBytes txBytes).2 = None →
       Signature tx = ""
       ∨ (iavl.Get (AccountSetChangePrefix +:+ SignPubKey tx) (state app)).1
         ≠ 0 →
       log = "验证节点错误").
Proof.
  intros tx Hty Hgen. unfold CheckTx. run. subst tx.
  destruct (FromBytes txBytes) as [tx1 [e|]]; cbn [fst snd] in *.
  { eexists. split; [done |]. done. }
  destruct (String.eqb_spec (Signature tx1) "") as [Hsig|Hsig]; cbn [negb].
  - destruct Hty as [-> | ->]; simpl; rewrite Hgen; simpl;
      eexists; (split; [done |]); done.
  - destruct (Z.eqb_spec
      (iavl.Get (AccountSetChangePrefix +:+ SignPubKey tx1) (state app)).1 0)
      as [Hidx|Hidx].
    + eexists. split; [done |]. intros _ [?|?]; done.
    + destruct Hty as [-> | ->]; simpl; rewrite Hgen; simpl;
        eexists; (split; [done |]); done.
Qed.

Lemma CheckTx_non_genesis_signer_EncodingError_witness :
  ∃ log : string,
    @CheckTx Sample.externals sample_account_tx sample_app
    = Return (types.mkResponse code.CodeTypeEncodingError log) sample_app.
Proof.
  destruct (@CheckTx_non_genesis_signer_EncodingError Sample.externals
              sample_account_tx sample_app) as [log [Hlog _]].
  - left. reflexivity.
  - reflexivity.
  - exists log. exact Hlog.
Defined.

(** ** The genesis map across blocks *)

(** [BeginBlock] replaces the genesis map by an empty one: whatever the
    application held, no signer has an entry afterwards. The store is left
    alone. *)
Lemma BeginBlock_resets_GenesisValidators (app : PersistentApplication) :
  ∃ app', BeginBlock app = Return tt app'
    ∧ GenesisValidators app' = Some ∅
    ∧ ValUpdates app' = []
    ∧ state app' = state app
    ∧ ∀ k, genesis_power app' k = 0.
Proof.
  unfold BeginBlock. run. eexists. repeat split.
Qed.

(** C4, on the code. [InitChain] with the validator [V1] of power 10
    registers ["V1"] in the genesis map of [sample_app]; after one
    BeginBlock/EndBlock/Commit cycle the entry is gone, although the
    validator record is still in the store. *)
Lemma genesis_entry_lost_after_one_block :
  ∃ app1 res app2,
    @InitChain Sample.externals [V1] sample_app = Return tt app1
    ∧ genesis_power app1 "V1" = 10
    ∧ (BeginBlock ≫= λ _,
       EndBlock ≫= λ _,
       @Commit Sample.externals) app1 = Return res app2
    ∧ genesis_power app2 "V1" = 0
    ∧ iavl.Has "val:V1" (state app2) = true.
Proof.
  destruct (@InitChain Sample.externals [V1] sample_app)
    as [[] app1|msg] eqn:E1; [| vm_compute in E1; discriminate E1].
  destruct ((BeginBlock ≫= λ _,
             EndBlock ≫= λ _,
             @Commit Sample.externals) app1)
    as [res app2|msg] eqn:E2.
  - exists app1, res, app2.
    vm_compute in E1. injection E1 as <-.
    vm_compute in E2. injection E2 as <- <-.
    repeat split; vm_compute; reflexivity.
  - vm_compute in E1. injection E1 as <-. vm_compute in E2. discriminate E2.
Qed.

(** On the application [NewPersistentApplication] builds, the genesis map
    is nil and the first validator [InitChain] accepts makes the
    assignment panic. *)
Lemma InitChain_nil_map_panics :
  @InitChain Sample.externals [V1] (NewPersistentApplication sample_tree)
  = Panic "assignment to entry in nil map".
Proof. vm_compute. reflexivity. Qed.

(** ** Enumerating validators *)

Section Enumeration.
Context `{Externals}.

Lemma Validators_iterate_decode (kvs : list (string * string))
    (acc : list types.Validator) (app : PersistentApplication) :
  Validators_iterate kvs acc app =
  match decode_validators kvs with
  | inl vs => Return (acc ++ vs)%list app
  | inr err => Panic err
  end.
Proof.
  revert acc. induction kvs as [|[k v] kvs IH]; intros acc; simpl.
  - by rewrite app_nil_r.
  - destruct (isValidatorTx k); [|apply IH].
    destruct (ReadMessage v) as [r|err]; [|done].
    rewrite IH. destruct (decode_validators kvs); [|done].
    by rewrite <- app_assoc.
Qed.

Lemma Validators_decode (app : PersistentApplication) :
  Validators app =
  match decode_validators (iavl.items (state app)) with
  | inl vs => Return vs app
  | inr err => Panic err
  end.
Proof. unfold Validators. run. by rewrite Validators_iterate_decode. Qed.

(** Every pair under the validator prefix contributes its record. *)
Lemma decode_validators_elem kvs vs k v :
  decode_validators kvs = inl vs →
  (k, v) ∈ kvs → isValidatorTx k = true →
  ∃ r, ReadMessage v = inl r ∧ r ∈ vs.
Proof.
  revert vs. induction kvs as [|[k' v'] kvs IH]; intros vs Hdec Hin Hpre.
  - by apply elem_of_nil in Hin.
  - simpl in Hdec. apply elem_of_cons in Hin as [[= <- <-]|Hin].
    + rewrite Hpre in Hdec.
      destruct (ReadMessage v) as [r|] eqn:Hr; [|done].
      destruct (decode_validators kvs); [|done].
      injection Hdec as <-. exists r. split; [done | apply list_elem_of_here].
    + destruct (isValidatorTx k'); [|by eapply IH].
      destruct (ReadMessage v') as [r'|]; [|done].
      destruct (decode_validators kvs) as [vs'|]; [|done].
      injection Hdec as <-.
      destruct (IH vs' eq_refl Hin Hpre) as (r & Hr & Hel).
      exists r. split; [done | by apply list_elem_of_further].
Qed.

(** Every record comes from a pair under the validator prefix. *)
Lemma decode_validators_origin kvs vs r :
  decode_validators kvs = inl vs → r ∈ vs →
  ∃ k v, (k, v) ∈ kvs ∧ isValidatorTx k = true ∧ ReadMessage v = inl r.
Proof.
  revert vs. induction kvs as [|[k' v'] kvs IH]; intros vs Hdec Hin.
  - injection Hdec as <-. by apply elem_of_nil in Hin.
  - simpl in Hdec. destruct (isValidatorTx k') eqn:Hpre.
    + destruct (ReadMessage v') as [r'|] eqn:Hr; [|done].
      destruct (decode_validators kvs) as [vs'|]; [|done].
      injection Hdec as <-. apply elem_of_cons in Hin as [->|Hin].
      * exists k', v'. split; [apply list_elem_of_here | done].
      * destruct (IH vs' eq_refl Hin) as (k & v & Hel & ? & ?).
        exists k, v. split; [by apply list_elem_of_further | done].
    + destruct (IH vs Hdec Hin) as (k & v & Hel & ? & ?).
      exists k, v. split; [by apply list_elem_of_further | done].
Qed.

(** The enumeration fails only on a value that does not decode. *)
Lemma decode_validators_total kvs :
  (∀ k v, (k, v) ∈ kvs → isValidatorTx k = true →
          ∃ r, ReadMessage v = inl r) →
  ∃ vs, decode_validators kvs = inl vs.
Proof.
  induction kvs as [|[k' v'] kvs IH]; intros Hall; simpl.
  - by eexists.
  - destruct IH as [vs Hvs].
    { intros k v Hin. apply Hall. by apply list_elem_of_further. }
    rewrite Hvs. destruct (isValidatorTx k') eqn:Hpre; [|by eexists].
    destruct (Hall k' v') as [r ->]; [apply list_elem_of_here | done |].
    by eexists.
Qed.

Lemma elem_of_items (t : iavl.VersionedTree) (k v : string) :
  (k, v) ∈ iavl.items t ↔ iavl.tree t !! k = Some v.
Proof.
  unfold iavl.items. rewrite merge_sort_Permutation.
  apply elem_of_map_to_list.
Qed.
End Enumeration.

(** ** DeliverTx on a validator change *)

Section ValidatorChange.
Context `{Externals}.
Variables (txBytes : string) (app : PersistentApplication).

Let tx := (FromBytes txBytes).1.
Let val := (ToValidator tx).1.
Let key := ValidatorSetChangePrefix +:+ types.PubKey val.

Lemma mkValidator_eta (v : types.Validator) :
  types.mkValidator (types.PubKey v) (types.Power v) = v.
Proof. by destruct v. Qed.

(** The branch [val.Power != 0]. *)
Lemma DeliverTx_validator_add :
  Type_ tx = ValidatorSet → types.Power val ≠ 0 →
  DeliverTx txBytes app =
  match WriteMessage val with
  | inl bz =>
      Return ok_response
        (mkApp (iavl.Set_ key bz (state app)) (ValUpdates app ++ [val])
               (GenesisValidators app))
  | inr err =>
      Return (encoding_error ("Error encoding validator: " +:+ err)) app
  end.
Proof.
  intros Hty Hpow. unfold DeliverTx. fold tx. rewrite Hty. fold val.
  rewrite mkValidator_eta. run.
  destruct (Z.eqb_spec (types.Power val) 0) as [|_]; [done |].
  by destruct (WriteMessage val).
Qed.

(** The branch [val.Power == 0]. *)
Lemma DeliverTx_validator_remove :
  Type_ tx = ValidatorSet → types.Power val = 0 →
  DeliverTx txBytes app =
  if iavl.Has key (state app) then
    Return ok_response
      (mkApp (iavl.Remove key (state app)) (ValUpdates app ++ [val])
             (GenesisValidators app))
  else
    Return (types.mkResponse code.CodeTypeUnauthorized
              ("Cannot remove non-existent validator " +:+ fmtX key)) app.
Proof.
  intros Hty Hpow. unfold DeliverTx. fold tx. rewrite Hty. fold val.
  rewrite mkValidator_eta. run. rewrite Hpow. cbn [Z.eqb]. fold key.
  by destruct (iavl.Has key (state app)).
Qed.
End ValidatorChange.

Lemma Has_true (key : string) (t : iavl.VersionedTree) :
  iavl.Has key t = true ↔ is_Some (iavl.tree t !! key).
Proof. unfold iavl.Has. apply bool_decide_eq_true. Qed.

Lemma Has_false (key : string) (t : iavl.VersionedTree) :
  iavl.Has key t = false ↔ iavl.tree t !! key = None.
Proof.
  unfold iavl.Has. rewrite bool_decide_eq_false. symmetry.
  apply eq_None_not_Some.
Qed.

(** C5. Let a ValidatorSet transaction carry a record [val] of positive
    power and let [DeliverTx] return code OK on it. Then the store maps
    [ValidatorSetChangePrefix + val.PubKey] to the bytes [WriteMessage]
    produced for [val] and, provided [ReadMessage] decodes those bytes back
    to [val], every list [Validators] returns afterwards contains [val]
    (same public key, same power). [Validators] does return after the
    transaction whenever it returned before it: it panics only on a stored
    value under the validator prefix that does not decode. *)
Theorem DeliverTx_validator_is_enumerated `{Externals}
    (txBytes : string) (app app' : PersistentApplication)
    (res : types.Response) :
  let tx := (FromBytes txBytes).1 in
  let val := (ToValidator tx).1 in
  let key := ValidatorSetChangePrefix +:+ types.PubKey val in
  Type_ tx = ValidatorSet →
  0 < types.Power val →
  DeliverTx txBytes app = Return res app' →
  types.Code res = code.Ok →
  (∀ bz, WriteMessage val = inl bz → ReadMessage bz = inl val) →
  (∃ bz, WriteMessage val = inl bz
         ∧ iavl.tree (state app') = <[key := bz]> (iavl.tree (state app)))
  ∧ (∀ vs app'', Validators app' = Return vs app'' → val ∈ vs)
  ∧ ((∃ vs0 app0, Validators app = Return vs0 app0) →
     ∃ vs, Validators app' = Return vs app' ∧ val ∈ vs).
Proof.
  intros tx val key Hty Hpos Hrun Hok Hround.
  rewrite DeliverTx_validator_add in Hrun by (done || (fold tx val; lia)).
  fold tx val key in Hrun.
  destruct (WriteMessage val) as [bz|err] eqn:Hw; [|by simplify_eq].
  injection Hrun as <- <-. specialize (Hround bz eq_refl).
  assert (Hin : (key, bz) ∈ iavl.items (iavl.Set_ key bz (state app))).
  { apply elem_of_items. simpl. apply lookup_insert_eq. }
  assert (Hget : ∀ vs,
    decode_validators (iavl.items (iavl.Set_ key bz (state app))) = inl vs →
    val ∈ vs).
  { intros vs Hdec.
    destruct (decode_validators_elem _ _ _ _ Hdec Hin) as (r & Hr & Hel).
    - apply HasPrefix_app.
    - congruence. }
  split; [by exists bz |]. split.
  - intros vs app''. rewrite Validators_decode. simpl.
    destruct (decode_validators _) as [vs'|] eqn:Hdec; [|done].
    intros [= <- <-]. by apply Hget.
  - intros (vs0 & app0 & Hbefore). rewrite Validators_decode in Hbefore.
    destruct (decode_validators (iavl.items (state app)))
      as [vs0'|] eqn:Hdec0; [|done].
    rewrite Validators_decode. simpl.
    destruct (decode_validators_total
                (iavl.items (iavl.Set_ key bz (state app)))) as [vs Hdec].
    { intros k v Hkv Hpre. apply elem_of_items in Hkv. simpl in Hkv.
      destruct (decide (k = key)) as [->|Hne].
      - rewrite lookup_insert_eq in Hkv. injection Hkv as <-. by exists val.
      - rewrite lookup_insert_ne in Hkv by done.
        apply elem_of_items in Hkv.
        destruct (decode_validators_elem _ _ _ _ Hdec0 Hkv Hpre)
          as (r & Hr & _).
        by exists r. }
    rewrite Hdec. exists vs. split; [done | by apply Hget].
Qed.

Lemma DeliverTx_validator_is_enumerated_witness :
  @DeliverTx Sample.externals sample_add_tx sample_app
    = Return ok_response sample_app_added
  ∧ ∃ vs, @Validators Sample.externals sample_app_added
            = Return vs sample_app_added
          ∧ types.mkValidator "K" 5 ∈ vs.
Proof.
  assert (Hrun : @DeliverTx Sample.externals sample_add_tx sample_app
                 = Return ok_response sample_app_added)
    by (vm_compute; reflexivity).
  split; [exact Hrun |].
  destruct (@DeliverTx_validator_is_enumerated Sample.externals
              sample_add_tx sample_app sample_app_added ok_response)
    as (_ & _ & Hreturns).
  - reflexivity.
  - vm_compute. reflexivity.
  - exact Hrun.
  - reflexivity.
  - intros bz Hbz. vm_compute in Hbz. injection Hbz as <-.
    vm_compute. reflexivity.
  - apply Hreturns. exists [], sample_app. vm_compute. reflexivity.
Defined.

(** The enumeration does panic on a value under the validator prefix that
    does not decode, here one a key/value write put there. *)
Lemma Validators_panics_on_undecodable_value :
  (@DeliverTx Sample.externals "db|||val:zzz=junk" ≫= λ _,
   @DeliverTx Sample.externals sample_add_tx ≫= λ _,
   @Validators Sample.externals) sample_app
  = Panic "unexpected end of message".
Proof. vm_compute. reflexivity. Qed.

(** C6. A ValidatorSet transaction of power zero whose key
    [ValidatorSetChangePrefix + PubKey] has no record is refused with
    [CodeTypeUnauthorized] and the application is unchanged. When the
    record exists, as it does after a successful addition of that key, the
    transaction returns OK, deletes the key from the store and appends the
    change to the pending updates; every record [Validators] then returns
    was decoded from another key of the store, so that no record with that
    public key is returned when keys name their records. *)
Theorem DeliverTx_validator_removal `{Externals}
    (txBytes : string) (app : PersistentApplication) :
  let tx := (FromBytes txBytes).1 in
  let val := (ToValidator tx).1 in
  let key := ValidatorSetChangePrefix +:+ types.PubKey val in
  Type_ tx = ValidatorSet →
  types.Power val = 0 →
  (iavl.tree (state app) !! key = None →
   DeliverTx txBytes app =
   Return (types.mkResponse code.CodeTypeUnauthorized
             ("Cannot remove non-existent validator " +:+ fmtX key)) app)
  ∧ (is_Some (iavl.tree (state app) !! key) →
     ∃ app',
       DeliverTx txBytes app = Return ok_response app'
       ∧ iavl.tree (state app') = delete key (iavl.tree (state app))
       ∧ iavl.Has key (state app') = false
       ∧ ValUpdates app' = (ValUpdates app ++ [val])%list
       ∧ GenesisValidators app' = GenesisValidators app
       ∧ (∀ vs app'' r, Validators app' = Return vs app'' → r ∈ vs →
            ∃ k v, k ≠ key ∧ iavl.tree (state app) !! k = Some v
                   ∧ isValidatorTx k = true ∧ ReadMessage v = inl r)
       ∧ ((∀ k v r, iavl.tree (state app) !! k = Some v →
                    isValidatorTx k = true → ReadMessage v = inl r →
                    k = ValidatorSetChangePrefix +:+ types.PubKey r) →
          ∀ vs app'' r, Validators app' = Return vs app'' → r ∈ vs →
            types.PubKey r ≠ types.PubKey val))
  ∧ (∀ addBytes app0 res,
       let added := (ToValidator (FromBytes addBytes).1).1 in
       Type_ (FromBytes addBytes).1 = ValidatorSet →
       types.PubKey added = types.PubKey val →
       0 < types.Power added →
       DeliverTx addBytes app0 = Return res app →
       types.Code res = code.Ok →
       is_Some (iavl.tree (state app) !! key)).
Proof.
  intros tx val key Hty Hpow. split; [|split].
  - intros Habs. rewrite DeliverTx_validator_remove by done.
    fold tx val key. by rewrite (proj2 (Has_false key (state app)) Habs).
  - intros Hpres. rewrite DeliverTx_validator_remove by done.
    fold tx val key. rewrite (proj2 (Has_true key (state app)) Hpres).
    eexists. split; [done |]. simpl.
    assert (Horigin : ∀ vs app'' r,
      Validators (mkApp (iavl.Remove key (state app))
                    (ValUpdates app ++ [val]) (GenesisValidators app))
        = Return vs app'' → r ∈ vs →
      ∃ k v, k ≠ key ∧ iavl.tree (state app) !! k = Some v
             ∧ isValidatorTx k = true ∧ ReadMessage v = inl r).
    { intros vs app'' r. rewrite Validators_decode. simpl.
      destruct (decode_validators _) as [vs'|] eqn:Hdec; [|done].
      intros [= <- <-] Hr.
      destruct (decode_validators_origin _ _ _ Hdec Hr)
        as (k & v & Hkv & Hpre & Hread).
      apply elem_of_items in Hkv. simpl in Hkv.
      apply lookup_delete_Some in Hkv as [Hne Hkv].
      exists k, v. by repeat split. }
    repeat split; try done.
    + apply Has_false. simpl. apply lookup_delete_eq.
    + intros Hkeyed vs app'' r Hvs Hr.
      destruct (Horigin vs app'' r Hvs Hr) as (k & v & Hne & Hkv & Hpre & Hrd).
      intros Heq. apply Hne. rewrite (Hkeyed k v r Hkv Hpre Hrd).
      unfold key. by rewrite Heq.
  - intros addBytes app0 res added Hty' Hpk Hpos Hrun Hok.
    rewrite DeliverTx_validator_add in Hrun by (done || (fold added; lia)).
    fold added in Hrun.
    destruct (WriteMessage added) as [bz|err]; [|by simplify_eq].
    injection Hrun as <- <-. simpl. unfold key. rewrite <- Hpk.
    rewrite lookup_insert_eq. by eexists.
Qed.

Lemma DeliverTx_validator_removal_witness :
  (∃ log, @DeliverTx Sample.externals sample_remove_tx sample_app
          = Return (types.mkResponse code.CodeTypeUnauthorized log) sample_app)
  ∧ ∃ app', @DeliverTx Sample.externals sample_remove_tx sample_app_added
            = Return ok_response app'
            ∧ iavl.Has "val:K" (state app') = false.
Proof.
  split.
  - eexists.
    refine (proj1 (@DeliverTx_validator_removal Sample.externals
                     sample_remove_tx sample_app _ _) _);
      vm_compute; reflexivity.
  - destruct (proj1 (proj2 (@DeliverTx_validator_removal Sample.externals
                sample_remove_tx sample_app_added eq_refl eq_refl)))
      as (app' & Hrun & _ & Hhas & _).
    + vm_compute. eexists. reflexivity.
    + exists app'. split; [exact Hrun | exact Hhas].
Defined.

(** ** Transactions of an unrecognised type *)

(** C7, as stated, fails for [CheckTx]: [sample_unknown_tx] parses without
    error to a transaction of unrecognised type, [DeliverTx] answers
    "unknown transaction type", but [CheckTx] on an empty store stops at
    the signer-account check and answers with another log. *)
Lemma CheckTx_unknown_type_other_log :
  Sample.FromBytes sample_unknown_tx
    = (mkTransaction Other "x" "ghost" "sig", None)
  ∧ @DeliverTx Sample.externals sample_unknown_tx empty_app
    = Return (encoding_error "unknown transaction type") empty_app
  ∧ @CheckTx Sample.externals sample_unknown_tx empty_app
    = Return (encoding_error "节点账户不存在") empty_app
  ∧ types.Log (encoding_error "节点账户不存在") ≠ "unknown transaction type".
Proof. vm_compute. repeat split; congruence. Qed.

(** C7, amended. For every payload whose transaction has an unrecognised
    type, [DeliverTx] returns [CodeTypeEncodingError] with the log "unknown
    transaction type" and leaves the application (store and pending
    updates) unchanged, so that a following [Commit] is unaffected;
    [CheckTx] returns [CodeTypeEncodingError] too and changes nothing, with
    that same log when the payload parsed without error and the
    signer-account check did not reject it first. *)
Theorem unknown_type_EncodingError `{Externals}
    (txBytes : string) (app : PersistentApplication) :
  let tx := (FromBytes txBytes).1 in
  Type_ tx = Other →
  DeliverTx txBytes app
    = Return (encoding_error "unknown transaction type") app
  ∧ (DeliverTx txBytes ≫= λ _, Commit) app = Commit app
  ∧ ∃ log : string,
      CheckTx txBytes app = Return (encoding_error log) app
      ∧ ((FromBytes txBytes).2 = None →
         Signature tx = ""
         ∨ (iavl.Get (AccountSetChangePrefix +:+ SignPubKey tx)
              (state app)).1 ≠ 0 →
         log = "unknown transaction type").
Proof.
  intros tx Hty.
  assert (Hd : DeliverTx txBytes app
               = Return (encoding_error "unknown transaction type") app).
  { unfold DeliverTx. fold tx. by rewrite Hty. }
  split; [exact Hd |]. split.
  { unfold mbind at 1, M_bind at 1. by rewrite Hd. }
  unfold CheckTx. run. subst tx.
  destruct (FromBytes txBytes) as [tx1 [e|]]; cbn [fst snd] in *.
  { eexists. split; [done |]. done. }
  destruct (String.eqb_spec (Signature tx1) "") as [Hsig|Hsig]; cbn [negb].
  - rewrite Hty. eexists. split; [done |]. done.
  - destruct (Z.eqb_spec
      (iavl.Get (AccountSetChangePrefix +:+ SignPubKey tx1) (state app)).1 0)
      as [Hidx|Hidx].
    + eexists. split; [done |]. intros _ [?|?]; done.
    + rewrite Hty. eexists. split; [done |]. done.
Qed.

Lemma unknown_type_EncodingError_witness :
  @DeliverTx Sample.externals sample_unknown_tx sample_app
    = Return (encoding_error "unknown transaction type") sample_app
  ∧ @CheckTx Sample.externals sample_unknown_tx sample_app
    = Return (encoding_error "unknown transaction type") sample_app.
Proof.
  destruct (@unknown_type_EncodingError Sample.externals
              sample_unknown_tx sample_app eq_refl)
    as (Hd & _ & log & Hc & Hlog).
  split; [exact Hd |].
  rewrite Hc. rewrite Hlog; [reflexivity | reflexivity |].
  right. vm_compute. discriminate.
Defined.

(** ** Query *)

(** C8. On the path [cnst.DbGet], for a request that decodes to a key the
    store does not hold, [Query] leaves the code at its zero value OK, sets
    the log to "does not exist", returns a nil value and carries the key
    back; the application is unchanged. *)
Theorem Query_absent_key `{Externals}
    (reqQuery : types.RequestQuery) (db : ktx.Db)
    (app : PersistentApplication) :
  types.Path reqQuery = cnst_DbGet →
  json_Unmarshal (types.Data reqQuery) = inl db →
  iavl.tree (state app) !! ktx.Key db = None →
  ∃ res, Query reqQuery app = Return res app
    ∧ types.QCode res = code.Ok
    ∧ types.QCode res = CodeTypeOK
    ∧ types.QLog res = "does not exist"
    ∧ types.QValue res = None
    ∧ types.QKey res = Some (ktx.Key db)
    ∧ types.QIndex res = (iavl.Get (ktx.Key db) (state app)).1.
Proof.
  intros Hpath Hjson Habs. unfold Query. run.
  rewrite Hpath, String.eqb_refl, Hjson.
  unfold iavl.Get. rewrite Habs. eexists. repeat split.
Qed.

Lemma Query_absent_key_witness :
  ∃ res, @Query Sample.externals (types.mkRequestQuery "key=zz" "db_get")
           sample_app = Return res sample_app
    ∧ types.QCode res = code.Ok
    ∧ types.QLog res = "does not exist"
    ∧ types.QValue res = None
    ∧ types.QKey res = Some "zz".
Proof.
  destruct (@Query_absent_key Sample.externals
              (types.mkRequestQuery "key=zz" "db_get") (ktx.mkDb "zz" "")
              sample_app)
    as (res & Hq & Hcode & _ & Hlog & Hval & Hkey & _).
  - reflexivity.
  - reflexivity.
  - vm_compute. reflexivity.
  - exists res. repeat split; assumption.
Defined.

(** ** DeliverTx and the signer *)

(** Replacing the genesis map of an application. *)
Lemma DeliverTx_frame_genesis `{Externals} (txBytes : string)
    (app : PersistentApplication) (g : option (gmap string Z)) :
  DeliverTx txBytes (mkApp (state app) (ValUpdates app) g) =
  match DeliverTx txBytes app with
  | Return res app' => Return res (mkApp (state app') (ValUpdates app') g)
  | Panic msg => Panic msg
  end.
Proof.
  unfold DeliverTx. run. unfold with_state. simpl.
  repeat (case_match; simplify_eq/=); done.
Qed.

(** C9. Provided the body decoders of [Transaction] read the type and the
    body only, two payloads whose transactions have the same type and body
    (and so differ at most in signer public key and signature) get the same
    response from [DeliverTx] and the same resulting application, on every
    application; and the genesis map plays no role: with another map in
    place, [DeliverTx] gives the same response, the same store and the same
    pending updates, and hands the map back untouched. *)
Theorem DeliverTx_ignores_signer `{Externals}
    (txBytes1 txBytes2 : string) (app : PersistentApplication) :
  decoders_read_body_only →
  same_type_and_body (FromBytes txBytes1).1 (FromBytes txBytes2).1 →
  DeliverTx txBytes1 app = DeliverTx txBytes2 app
  ∧ (∃ res app', DeliverTx txBytes1 app = Return res app'
       ∧ GenesisValidators app' = GenesisValidators app)
  ∧ ∀ g : option (gmap string Z),
      DeliverTx txBytes1 (mkApp (state app) (ValUpdates app) g) =
      match DeliverTx txBytes1 app with
      | Return res app' => Return res (mkApp (state app') (ValUpdates app') g)
      | Panic msg => Panic msg
      end.
Proof.
  intros Hdec Hsame.
  destruct (Hdec _ _ Hsame) as (Hacc & Hval & Hdb).
  destruct Hsame as [Hty _]. split; [|split].
  - unfold DeliverTx. rewrite <- Hty, Hacc, Hval.
    destruct (Type_ (FromBytes txBytes1).1); try done.
    run. unfold with_state. by rewrite Hdb.
  - unfold DeliverTx. run. unfold with_state.
    repeat (case_match; simplify_eq/=); by eexists _, _.
  - apply DeliverTx_frame_genesis.
Qed.

Lemma DeliverTx_ignores_signer_witness :
  @DeliverTx Sample.externals "account|signer|sig|K/5" sample_app
  = @DeliverTx Sample.externals "account|intruder||K/5" sample_app
  ∧ (∃ log, @CheckTx Sample.externals "account|intruder||K/5" sample_app
            = Return (encoding_error log) sample_app)
  ∧ ∃ app', @DeliverTx Sample.externals "account|intruder||K/5" sample_app
            = Return ok_response app'
            ∧ iavl.tree (state app') !! "account:K" = Some "5".
Proof.
  split; [|split].
  - refine (proj1 (@DeliverTx_ignores_signer Sample.externals
                     "account|signer|sig|K/5" "account|intruder||K/5"
                     sample_app _ _)).
    + intros t1 t2 [Hty Hbody].
      unfold ToAccount, ToValidator, DbSave; simpl.
      unfold Sample.ToAccount, Sample.ToValidator, Sample.DbSave.
      rewrite Hbody. repeat split; reflexivity.
    + split; reflexivity.
  - eexists. vm_compute. reflexivity.
  - eexists. split; vm_compute; reflexivity.
Defined.

(** ** DeliverTx on an account registration *)

(** C10. On every payload of type AccountSet, [DeliverTx] ignores the
    error of [ToAccount]: it writes
    [cnst.AccountPrefix + account.PubKey -> Itoa(account.Power)] into the
    store, touches nothing else and returns OK, and so never returns
    [CodeTypeEncodingError]; this holds also when [ToAccount] reports an
    error, in which case [CheckTx], once past its earlier checks, rejects
    the same payload with that error. *)
Theorem DeliverTx_account_always_written `{Externals}
    (txBytes : string) (app : PersistentApplication) :
  let tx := (FromBytes txBytes).1 in
  let account := (ToAccount tx).1 in
  Type_ tx = AccountSet →
  DeliverTx txBytes app =
    Return ok_response
      (with_state (iavl.Set_ (cnst_AccountPrefix +:+ ktx.PubKey account)
                             (Itoa (ktx.Power account))) app)
  ∧ types.Code ok_response ≠ code.CodeTypeEncodingError
  ∧ ∀ e, (ToAccount tx).2 = Some e →
         (FromBytes txBytes).2 = None →
         Signature tx = ""
         ∨ (iavl.Get (AccountSetChangePrefix +:+ SignPubKey tx)
              (state app)).1 ≠ 0 →
         genesis_power app (SignPubKey tx) ≠ 0 →
         CheckTx txBytes app = Return (encoding_error e) app.
Proof.
  intros tx account Hty. split; [|split].
  - unfold DeliverTx. fold tx. rewrite Hty. fold account. by run.
  - done.
  - intros e Herr Hparse Hgate Hgen. unfold CheckTx. run. subst account tx.
    destruct (FromBytes txBytes) as [tx1 perr]; cbn [fst snd] in *.
    subst perr.
    assert (Hpass :
      (if negb (Signature tx1 =? "")%string
       then
         if (iavl.Get (AccountSetChangePrefix +:+ SignPubKey tx1)
               (state app)).1 =? 0
         then Return (Some (encoding_error "节点账户不存在")) app
         else Return None app
       else Return None app) = Return None app).
    { destruct (String.eqb_spec (Signature tx1) "") as [|Hsig]; [done |].
      cbn [negb]. destruct Hgate as [|Hidx]; [done |].
      by destruct (Z.eqb_spec (iavl.Get (AccountSetChangePrefix
                     +:+ SignPubKey tx1) (state app)).1 0). }
    destruct (negb (Signature tx1 =? "")%string);
      [destruct (_ =? 0) |]; simplify_eq/=;
      rewrite Hty; cbn;
      (destruct (Z.eqb_spec (genesis_power app (SignPubKey tx1)) 0);
        [done | by rewrite Herr]).
Qed.

Lemma DeliverTx_account_always_written_witness :
  (∃ app', @DeliverTx Sample.externals sample_bad_account_tx
             sample_app_genesis = Return ok_response app'
           ∧ iavl.tree (state app') !! "account:" = Some "0")
  ∧ @CheckTx Sample.externals sample_bad_account_tx sample_app_genesis
    = Return (encoding_error "expected pubkey/power") sample_app_genesis.
Proof.
  destruct (@DeliverTx_account_always_written Sample.externals
              sample_bad_account_tx sample_app_genesis eq_refl)
    as (Hd & _ & Hc).
  split.
  - eexists. split; [exact Hd |]. vm_compute. reflexivity.
  - apply Hc.
    + reflexivity.
    + reflexivity.
    + right. vm_compute. discriminate.
    + vm_compute. discriminate.
Defined.

(** ** A block, end to end *)

(** The scenario of section 8 on the sample instance: genesis validator
    [V1] of power 10, then a block that raises it to 20. [EndBlock] hands
    out the change made in that block (the one [InitChain] recorded was
    dropped by [BeginBlock]), [Commit] saves version 1, and the enumeration
    shows [V1] with its new power. *)
Lemma block_scenario :
  ∃ app',
    (@InitChain Sample.externals [V1] ≫= λ _,
     BeginBlock ≫= λ _,
     @DeliverTx Sample.externals "validator|||V1/20" ≫= λ r,
     EndBlock ≫= λ updates,
     @Commit Sample.externals ≫= λ c,
     mret (r, updates, types.CommitCode c)) sample_app
    = Return (ok_response, [types.mkValidator "V1" 20], code.Ok) app'
    ∧ iavl.LatestVersion (state app') = 1
    ∧ @Validators Sample.externals app'
      = Return [types.mkValidator "V1" 20] app'.
Proof.
  eexists. split; [vm_compute; reflexivity |].
  split; vm_compute; reflexivity.
Qed.


(** * Further properties of the handlers *)

(** ** Query *)

(** X1. [Query] never changes the application. Its code is OK or
    [CodeTypeBadNonce]; it is [CodeTypeBadNonce] exactly when the path is
    not [cnst.DbGet] or the request does not decode, and then neither a
    key nor a value is returned. *)
Theorem Query_read_only `{Externals}
    (reqQuery : types.RequestQuery) (app : PersistentApplication) :
  ∃ res, Query reqQuery app = Return res app
    ∧ (types.QCode res = code.Ok ∨ types.QCode res = code.CodeTypeBadNonce)
    ∧ (types.QCode res = code.CodeTypeBadNonce ↔
       types.Path reqQuery ≠ cnst_DbGet
       ∨ ∃ err, json_Unmarshal (types.Data reqQuery) = inr err)
    ∧ (types.QCode res = code.CodeTypeBadNonce →
       types.QKey res = None ∧ types.QValue res = None).
Proof.
  unfold Query. run.
  destruct (String.eqb_spec (types.Path reqQuery) cnst_DbGet) as [Hp|Hp].
  - destruct (json_Unmarshal (types.Data reqQuery)) as [db|err] eqn:Hj.
    + destruct (iavl.Get (ktx.Key db) (state app)) as [index value].
      eexists. split; [done |]. simpl. split; [by left |]. split; [|done].
      split; [done |]. intros [? | [err ?]]; done.
    + eexists. split; [done |]. simpl. split; [by right |].
      split; [|done]. split; [|done]. intros _. right. by exists err.
  - eexists. split; [done |]. simpl. split; [by right |].
    split; [|done]. split; [|done]. intros _. by left.
Qed.

Lemma Query_present_key `{Externals}
    (reqQuery : types.RequestQuery) (db : ktx.Db) (v : string)
    (app : PersistentApplication) :
  types.Path reqQuery = cnst_DbGet →
  json_Unmarshal (types.Data reqQuery) = inl db →
  iavl.tree (state app) !! ktx.Key db = Some v →
  Query reqQuery app =
  Return (types.mkResponseQuery 0 (iavl.Get (ktx.Key db) (state app)).1
            (Some (ktx.Key db)) (Some v) "exists") app.
Proof.
  intros Hpath Hjson Hv. unfold Query. run.
  rewrite Hpath, String.eqb_refl, Hjson.
  unfold iavl.Get. by rewrite Hv.
Qed.

(** X2. An account that [DeliverTx] registers can be read back: a [Query]
    on [cnst.DbGet] for the key [cnst.AccountPrefix + account.PubKey]
    answers OK, "exists", and the decimal text of the power. *)
Theorem DeliverTx_account_then_Query `{Externals}
    (txBytes : string) (reqQuery : types.RequestQuery) (db : ktx.Db)
    (app : PersistentApplication) :
  let tx := (FromBytes txBytes).1 in
  let account := (ToAccount tx).1 in
  Type_ tx = AccountSet →
  types.Path reqQuery = cnst_DbGet →
  json_Unmarshal (types.Data reqQuery) = inl db →
  ktx.Key db = cnst_AccountPrefix +:+ ktx.PubKey account →
  ∃ res app',
    (DeliverTx txBytes ≫= λ _, Query reqQuery) app = Return res app'
    ∧ types.QCode res = code.Ok
    ∧ types.QLog res = "exists"
    ∧ types.QValue res = Some (Itoa (ktx.Power account))
    ∧ types.QKey res = Some (cnst_AccountPrefix +:+ ktx.PubKey account).
Proof.
  intros tx account Hty Hpath Hjson Hkey.
  unfold mbind at 1, M_bind at 1.
  assert (Hd : DeliverTx txBytes app =
    Return ok_response
      (with_state (iavl.Set_ (cnst_AccountPrefix +:+ ktx.PubKey account)
                             (Itoa (ktx.Power account))) app)).
  { unfold DeliverTx. fold tx. rewrite Hty. fold account. by run. }
  rewrite Hd.
  erewrite Query_present_key; [| done | done |].
  - eexists _, _. split; [done |]. simpl. by rewrite Hkey.
  - rewrite Hkey. simpl. apply lookup_insert_eq.
Qed.

Lemma DeliverTx_account_then_Query_witness :
  ∃ res app',
    (@DeliverTx Sample.externals "account|||K/5" ≫= λ _,
     @Query Sample.externals (types.mkRequestQuery "key=account:K" "db_get"))
      sample_app = Return res app'
    ∧ types.QValue res = Some "5".
Proof.
  destruct (@DeliverTx_account_then_Query Sample.externals "account|||K/5"
              (types.mkRequestQuery "key=account:K" "db_get")
              (ktx.mkDb "account:K" "") sample_app)
    as (res & app' & Hrun & _ & _ & Hval & _).
  - reflexivity.
  - reflexivity.
  - reflexivity.
  - reflexivity.
  - exists res, app'. split; [exact Hrun | exact Hval].
Defined.

(** ** CheckTx *)

(** The index [Get] returns is zero exactly when no key of the tree is
    below the key asked for. *)
Lemma Get_index_zero (key : string) (t : iavl.VersionedTree) :
  (iavl.Get key t).1 = 0 ↔
  ∀ k v, iavl.tree t !! k = Some v → String.ltb k key = false.
Proof.
  unfold iavl.Get. simpl. split.
  - intros Hz k v Hkv.
    assert (Hnil : filter (λ kv : string * string,
                     String.ltb kv.1 key = true)
                     (map_to_list (iavl.tree t)) = []).
    { apply length_zero_iff_nil. lia. }
    apply elem_of_map_to_list in Hkv.
    destruct (String.ltb k key) eqn:Hlt; [|done].
    assert (Hin : (k, v) ∈ filter (λ kv : string * string,
                     String.ltb kv.1 key = true)
                     (map_to_list (iavl.tree t))).
    { apply list_elem_of_filter. by split. }
    rewrite Hnil in Hin. by apply elem_of_nil in Hin.
  - intros Hall.
    assert (Hnil : filter (λ kv : string * string,
                     String.ltb kv.1 key = true)
                     (map_to_list (iavl.tree t)) = []).
    { apply elem_of_nil_inv. intros [k v] Hin.
      apply list_elem_of_filter in Hin as [Hlt Hin]. simpl in Hlt.
      apply elem_of_map_to_list in Hin. by rewrite (Hall k v Hin) in Hlt. }
    by rewrite Hnil.
Qed.

(** Closes one path of [CheckTx]: the response is read off and the
    conditions are compared with the hypotheses of the path. *)
Ltac check_tx_case :=
  eexists; split; [reflexivity |];
  cbv [encoding_error ok_response types.Code code.Ok
       code.CodeTypeEncodingError];
  split; [first [by left | by right] |];
  split;
    [ intros; first [lia | tauto]
    | intros; intuition (first [lia | congruence]) ].

(** X3. [CheckTx] answers OK or [CodeTypeEncodingError], nothing else, and
    OK exactly when the payload parses without error, the signer-account
    check passes (no signature, or a non-zero index for the account key)
    and the check of its type passes: [CheckDb] for a DbSet, a non-zero
    genesis entry of the signer and a decodable body for an AccountSet or
    a ValidatorSet. A transaction of any other type is never accepted. *)
Theorem CheckTx_accepts_iff `{Externals}
    (txBytes : string) (app : PersistentApplication) :
  let tx := (FromBytes txBytes).1 in
  ∃ res, CheckTx txBytes app = Return res app
    ∧ (types.Code res = code.Ok
       ∨ types.Code res = code.CodeTypeEncodingError)
    ∧ (types.Code res = code.Ok ↔
       (FromBytes txBytes).2 = None
       ∧ (Signature tx = ""
          ∨ (iavl.Get (AccountSetChangePrefix +:+ SignPubKey tx)
               (state app)).1 ≠ 0)
       ∧ match Type_ tx with
         | DbSet => CheckDb tx = None
         | AccountSet =>
             genesis_power app (SignPubKey tx) ≠ 0
             ∧ (ToAccount tx).2 = None
         | ValidatorSet =>
             genesis_power app (SignPubKey tx) ≠ 0
             ∧ (ToValidator tx).2 = None
         | Other => False
         end).
Proof.
  intros tx. unfold CheckTx. run. subst tx.
  destruct (FromBytes txBytes) as [tx1 [e|]]; cbn [fst snd].
  { check_tx_case. }
  destruct (String.eqb_spec (Signature tx1) "") as [Hsig|Hsig]; cbn [negb];
    [| destruct (Z.eqb_spec
         (iavl.Get (AccountSetChangePrefix +:+ SignPubKey tx1) (state app)).1
         0) as [Hidx|Hidx]; [check_tx_case |]];
    (destruct (Type_ tx1); cbn;
     [ destruct (CheckDb tx1) eqn:?
     | destruct (Z.eqb_spec (genesis_power app (SignPubKey tx1)) 0);
         [| destruct (ToAccount tx1).2 eqn:?]
     | destruct (Z.eqb_spec (genesis_power app (SignPubKey tx1)) 0);
         [| destruct (ToValidator tx1).2 eqn:?]
     | ]; check_tx_case).
Qed.

Lemma CheckTx_no_genesis_entry `{Externals}
    (txBytes : string) (app : PersistentApplication) :
  Type_ (FromBytes txBytes).1 = AccountSet
  ∨ Type_ (FromBytes txBytes).1 = ValidatorSet →
  genesis_power app (SignPubKey (FromBytes txBytes).1) = 0 →
  ∃ log, CheckTx txBytes app = Return (encoding_error log) app.
Proof.
  intros Hty Hgen. unfold CheckTx. run.
  destruct (FromBytes txBytes) as [tx1 [e|]]; cbn [fst snd] in *;
    [by eexists |].
  destruct (negb _); [destruct (_ =? 0); [by eexists |] |];
    destruct Hty as [-> | ->]; cbn; rewrite Hgen; by eexists.
Qed.

(** X4. Once [BeginBlock] has run, and likewise on the application
    [NewPersistentApplication] builds, [CheckTx] rejects every AccountSet
    and every ValidatorSet transaction with [CodeTypeEncodingError],
    whoever signed it: the genesis map it consults is empty, respectively
    nil. *)
Theorem CheckTx_after_BeginBlock `{Externals}
    (txBytes : string) (app : PersistentApplication)
    (stateTree : iavl.VersionedTree) :
  Type_ (FromBytes txBytes).1 = AccountSet
  ∨ Type_ (FromBytes txBytes).1 = ValidatorSet →
  (∃ log app',
     (BeginBlock ≫= λ _, CheckTx txBytes) app
       = Return (encoding_error log) app'
     ∧ state app' = state app)
  ∧ ∃ log,
      CheckTx txBytes (NewPersistentApplication stateTree)
      = Return (encoding_error log) (NewPersistentApplication stateTree).
Proof.
  intros Hty. split.
  - unfold BeginBlock, mbind at 1, M_bind at 1. run.
    destruct (CheckTx_no_genesis_entry txBytes
                (mkApp (state app) [] (Some ∅)) Hty) as [log ->]; [done |].
    by eexists _, _.
  - by apply CheckTx_no_genesis_entry.
Qed.

Lemma CheckTx_after_BeginBlock_witness :
  ∃ log app',
    (BeginBlock ≫= λ _, @CheckTx Sample.externals sample_bad_account_tx)
      sample_app_genesis = Return (encoding_error log) app'.
Proof.
  destruct (@CheckTx_after_BeginBlock Sample.externals sample_bad_account_tx
              sample_app_genesis sample_tree) as [(log & app' & Hrun & _) _].
  - left. reflexivity.
  - exists log, app'. exact Hrun.
Defined.

(** X5. For a signed transaction that parses, the signer-account check of
    [CheckTx] looks at the index [Get] returns and not at the value: the
    transaction is rejected when no key of the store is below the
    signer's account key, even if the account is recorded; and the check
    is passed when some key is below, even if the account is not recorded
    (a DbSet transaction that passes [CheckDb] is then accepted). *)
Theorem CheckTx_signer_check_by_index `{Externals}
    (txBytes : string) (app : PersistentApplication) :
  let tx := (FromBytes txBytes).1 in
  let key := AccountSetChangePrefix +:+ SignPubKey tx in
  (FromBytes txBytes).2 = None →
  Signature tx ≠ "" →
  ((∀ k v, iavl.tree (state app) !! k = Some v → String.ltb k key = false) →
   CheckTx txBytes app = Return (encoding_error "节点账户不存在") app)
  ∧ ((∃ k v, iavl.tree (state app) !! k = Some v ∧ String.ltb k key = true) →
     Type_ tx = DbSet → CheckDb tx = None →
     CheckTx txBytes app = Return ok_response app).
Proof.
  intros tx key Hparse Hsig. unfold CheckTx. run. subst tx key.
  destruct (FromBytes txBytes) as [tx1 perr]; cbn [fst snd] in *.
  subst perr. apply String.eqb_neq in Hsig. rewrite Hsig. cbn [negb].
  split.
  - intros Hnone. apply Get_index_zero in Hnone. by rewrite Hnone.
  - intros (k & v & Hkv & Hlt) Hty Hdb.
    destruct (Z.eqb_spec
      (iavl.Get (AccountSetChangePrefix +:+ SignPubKey tx1) (state app)).1 0)
      as [Hidx|Hidx].
    + rewrite Get_index_zero in Hidx. by rewrite (Hidx k v Hkv) in Hlt.
    + by rewrite Hty, Hdb.
Qed.

Lemma CheckTx_signer_check_by_index_witness :
  @CheckTx Sample.externals "db|a|sig|k=v"
    (mkApp (Sample.tree_of [("account:a", "1"); ("b", "2")]) [] None)
  = Return (encoding_error "节点账户不存在")
      (mkApp (Sample.tree_of [("account:a", "1"); ("b", "2")]) [] None)
  ∧ @CheckTx Sample.externals "db|ghost|sig|k=v" sample_app
    = Return ok_response sample_app.
Proof.
  split.
  - refine (proj1 (@CheckTx_signer_check_by_index Sample.externals
                     "db|a|sig|k=v" _ eq_refl _) _).
    + discriminate.
    + apply Get_index_zero. vm_compute. reflexivity.
  - refine (proj2 (@CheckTx_signer_check_by_index Sample.externals
                     "db|ghost|sig|k=v" sample_app eq_refl _) _ eq_refl eq_refl).
    + discriminate.
    + exists "a", "1". split; vm_compute; reflexivity.
Defined.

(** ** DeliverTx *)

(** X6. [DeliverTx] always returns, with code OK, [CodeTypeEncodingError]
    or [CodeTypeUnauthorized]. It fails exactly on a transaction of
    unrecognised type, on the removal of a validator that has no record,
    and on a validator that [WriteMessage] cannot encode; and a failed
    transaction leaves the application exactly as it was. *)
Theorem DeliverTx_failure_changes_nothing `{Externals}
    (txBytes : string) (app : PersistentApplication) :
  let tx := (FromBytes txBytes).1 in
  let val := (ToValidator tx).1 in
  let key := ValidatorSetChangePrefix +:+ types.PubKey val in
  ∃ res app', DeliverTx txBytes app = Return res app'
    ∧ (types.Code res = code.Ok
       ∨ types.Code res = code.CodeTypeEncodingError
       ∨ types.Code res = code.CodeTypeUnauthorized)
    ∧ (types.Code res ≠ code.Ok → app' = app)
    ∧ (types.Code res ≠ code.Ok ↔
       Type_ tx = Other
       ∨ (Type_ tx = ValidatorSet
          ∧ (types.Power val = 0 ∧ iavl.tree (state app) !! key = None
             ∨ types.Power val ≠ 0 ∧ ∃ err, WriteMessage val = inr err))).
Proof.
  intros tx val key.
  destruct (Type_ tx) eqn:Hty.
  - unfold DeliverTx. fold tx. rewrite Hty. run.
    eexists _, _. split; [done |]. split; [by left |].
    split; [done |]. split; [done |]. intros [? | [? _]]; done.
  - unfold DeliverTx. fold tx. rewrite Hty. run.
    eexists _, _. split; [done |]. split; [by left |].
    split; [done |]. split; [done |]. intros [? | [? _]]; done.
  - destruct (decide (types.Power val = 0)) as [Hz|Hnz].
    + rewrite DeliverTx_validator_remove by done. fold tx val key.
      destruct (iavl.Has key (state app)) eqn:Hhas.
      * apply Has_true in Hhas as [bz Hbz].
        eexists _, _. split; [done |]. split; [by left |].
        split; [done |]. split; [done |].
        intros [? | [_ [[_ ?] | [? _]]]]; congruence.
      * apply Has_false in Hhas.
        eexists _, _. split; [done |]. split; [by right; right |].
        split; [done |]. split; [|done]. intros _. right. tauto.
    + rewrite DeliverTx_validator_add by done. fold tx val key.
      destruct (WriteMessage val) as [bz|err] eqn:Hw.
      * eexists _, _. split; [done |]. split; [by left |].
        split; [done |]. split; [done |].
        intros [? | [_ [[? _] | [_ [err ?]]]]]; congruence.
      * eexists _, _. split; [done |]. split; [by right; left |].
        split; [done |]. split; [|done]. intros _. right.
        split; [done |]. right. split; [done |]. by exists err.
  - unfold DeliverTx. fold tx. rewrite Hty. run.
    eexists _, _. split; [done |]. split; [by right; left |].
    split; [done |]. split; [|done]. intros _. by left.
Qed.

(** X7. A later account registration overwrites an earlier one for the
    same public key without a trace: delivering both leaves the
    application as delivering the second alone does. *)
Theorem DeliverTx_account_overwrites `{Externals}
    (txBytes1 txBytes2 : string) (app : PersistentApplication) :
  let account1 := (ToAccount (FromBytes txBytes1).1).1 in
  let account2 := (ToAccount (FromBytes txBytes2).1).1 in
  Type_ (FromBytes txBytes1).1 = AccountSet →
  Type_ (FromBytes txBytes2).1 = AccountSet →
  ktx.PubKey account1 = ktx.PubKey account2 →
  (DeliverTx txBytes1 ≫= λ _, DeliverTx txBytes2) app
  = DeliverTx txBytes2 app
  ∧ ∃ app', DeliverTx txBytes2 app = Return ok_response app'
      ∧ iavl.tree (state app')
          !! (cnst_AccountPrefix +:+ ktx.PubKey account2)
        = Some (Itoa (ktx.Power account2)).
Proof.
  intros account1 account2 Hty1 Hty2 Hpk.
  unfold DeliverTx. rewrite Hty1, Hty2. fold account1 account2. run.
  unfold with_state, iavl.Set_. simpl. rewrite Hpk, insert_insert_eq.
  split; [done |]. eexists. split; [done |]. simpl. apply lookup_insert_eq.
Qed.

Lemma DeliverTx_account_overwrites_witness :
  (@DeliverTx Sample.externals "account|||K/5" ≫= λ _,
   @DeliverTx Sample.externals "account|x|y|K/7") sample_app
  = @DeliverTx Sample.externals "account|x|y|K/7" sample_app.
Proof.
  refine (proj1 (@DeliverTx_account_overwrites Sample.externals
                   "account|||K/5" "account|x|y|K/7" sample_app _ _ _));
    reflexivity.
Defined.

(** X8. Adding a validator that has no record and then removing it gives
    the store back as it was, contents and versions; both responses are
    OK and the two changes are appended to [ValUpdates] in that order. *)
Theorem DeliverTx_add_then_remove `{Externals}
    (addBytes removeBytes : string) (app : PersistentApplication) :
  let added := (ToValidator (FromBytes addBytes).1).1 in
  let removed := (ToValidator (FromBytes removeBytes).1).1 in
  let key := ValidatorSetChangePrefix +:+ types.PubKey added in
  Type_ (FromBytes addBytes).1 = ValidatorSet →
  Type_ (FromBytes removeBytes).1 = ValidatorSet →
  types.PubKey removed = types.PubKey added →
  types.Power added ≠ 0 →
  types.Power removed = 0 →
  (∃ bz, WriteMessage added = inl bz) →
  iavl.tree (state app) !! key = None →
  (DeliverTx addBytes ≫= λ r1, DeliverTx removeBytes ≫= λ r2, mret (r1, r2))
    app
  = Return (ok_response, ok_response)
      (mkApp (state app) (ValUpdates app ++ [added; removed])
             (GenesisValidators app)).
Proof.
  intros added removed key Hty1 Hty2 Hpk Hadd Hrem [bz Hbz] Habs.
  unfold mbind at 1, M_bind at 1.
  rewrite DeliverTx_validator_add by done. fold added. rewrite Hbz.
  unfold mbind at 1, M_bind at 1.
  rewrite DeliverTx_validator_remove by done. fold removed.
  rewrite Hpk. fold key. simpl.
  rewrite (proj2 (Has_true key (iavl.Set_ key bz (state app)))).
  2: { simpl. rewrite lookup_insert_eq. by eexists. }
  unfold mret, M_ret. f_equal. f_equal.
  - unfold iavl.Remove, iavl.Set_. simpl.
    rewrite delete_insert_eq, delete_id by done. by destruct (state app).
  - by rewrite <- app_assoc.
Qed.

Lemma DeliverTx_add_then_remove_witness :
  ∃ updates,
    (@DeliverTx Sample.externals sample_add_tx ≫= λ r1,
     @DeliverTx Sample.externals sample_remove_tx ≫= λ r2, mret (r1, r2))
      sample_app
    = Return (ok_response, ok_response)
        (mkApp (state sample_app) updates (GenesisValidators sample_app)).
Proof.
  eexists.
  refine (@DeliverTx_add_then_remove Sample.externals sample_add_tx
            sample_remove_tx sample_app _ _ _ _ _ _ _).
  - reflexivity.
  - reflexivity.
  - reflexivity.
  - vm_compute. discriminate.
  - reflexivity.
  - eexists. reflexivity.
  - vm_compute. reflexivity.
Defined.

(** X9. When the validator prefix is ["val:"], the ValidatorSet branch of
    [DeliverTx] and [updateValidator] are the same operation: on the
    record the transaction carries they give the same response and the
    same application. *)
Theorem DeliverTx_is_updateValidator `{Externals}
    (txBytes : string) (app : PersistentApplication) :
  ValidatorSetChangePrefix = "val:" →
  Type_ (FromBytes txBytes).1 = ValidatorSet →
  DeliverTx txBytes app
  = updateValidator (ToValidator (FromBytes txBytes).1).1 app.
Proof.
  intros Hpre Hty. unfold DeliverTx, updateValidator.
  rewrite Hty, Hpre, mkValidator_eta. done.
Qed.

Lemma DeliverTx_is_updateValidator_witness :
  @DeliverTx Sample.externals sample_add_tx sample_app
  = @updateValidator Sample.externals (types.mkValidator "K" 5) sample_app.
Proof.
  refine (@DeliverTx_is_updateValidator Sample.externals sample_add_tx
            sample_app _ _); reflexivity.
Defined.

(** ** A block of transactions *)

(** One delivery: it always returns, appends to [ValUpdates] what
    [recorded_change] says and leaves the genesis map alone. *)
Lemma DeliverTx_ValUpdates `{Externals}
    (txBytes : string) (app : PersistentApplication) :
  ∃ res app', DeliverTx txBytes app = Return res app'
    ∧ ValUpdates app' = (ValUpdates app ++ recorded_change txBytes res)%list
    ∧ GenesisValidators app' = GenesisValidators app.
Proof.
  unfold recorded_change.
  destruct (Type_ (FromBytes txBytes).1) eqn:Hty.
  1, 2, 4: unfold DeliverTx; rewrite Hty; run;
    eexists _, _; (split; [done |]); simpl; by rewrite app_nil_r.
  rewrite bool_decide_eq_true_2 by done. cbn [andb].
  destruct (decide (types.Power (ToValidator (FromBytes txBytes).1).1 = 0)).
  - rewrite DeliverTx_validator_remove by done.
    destruct (iavl.Has _ _); eexists _, _; (split; [done |]); simpl;
      [done | by rewrite app_nil_r].
  - rewrite DeliverTx_validator_add by done.
    destruct (WriteMessage _); eexists _, _; (split; [done |]); simpl;
      [done | by rewrite app_nil_r].
Qed.

Lemma DeliverTxs_ValUpdates `{Externals}
    (txs : list string) (app : PersistentApplication) :
  ∃ rs app', DeliverTxs txs app = Return rs app'
    ∧ length rs = length txs
    ∧ ValUpdates app'
      = (ValUpdates app ++ concat (zip_with recorded_change txs rs))%list
    ∧ GenesisValidators app' = GenesisValidators app.
Proof.
  revert app. induction txs as [|tx txs IH]; intros app; simpl.
  - exists [], app. run. by rewrite app_nil_r.
  - destruct (DeliverTx_ValUpdates tx app) as (r & app1 & Hr & Hups & Hg).
    destruct (IH app1) as (rs & app2 & Hrs & Hlen & Hups2 & Hg2).
    exists (r :: rs), app2. unfold mbind, M_bind. rewrite Hr, Hrs.
    split; [done |]. split; [simpl; by rewrite Hlen |].
    split; [| congruence]. simpl. by rewrite Hups2, Hups, <- app_assoc.
Qed.

(** X10. In a block, each delivered transaction gets one response, and
    [EndBlock] hands out exactly the records of the ValidatorSet
    transactions that were answered with OK, in the order of delivery:
    what an earlier block or [InitChain] recorded is not among them. *)
Theorem EndBlock_returns_block_changes `{Externals}
    (txs : list string) (app : PersistentApplication) :
  ∃ rs updates app',
    (BeginBlock ≫= λ _, DeliverTxs txs ≫= λ rs,
     EndBlock ≫= λ updates, mret (rs, updates)) app
    = Return (rs, updates) app'
    ∧ length rs = length txs
    ∧ updates = concat (zip_with recorded_change txs rs)
    ∧ ValUpdates app' = updates.
Proof.
  unfold BeginBlock, EndBlock. unfold mbind at 1, M_bind at 1. run.
  destruct (DeliverTxs_ValUpdates txs (mkApp (state app) [] (Some ∅)))
    as (rs & app' & Hrs & Hlen & Hups & _).
  rewrite Hrs. exists rs, (ValUpdates app'), app'.
  split; [done |]. split; [done |]. split; [|done]. by rewrite Hups.
Qed.

(** ** Commit and the versions of the tree *)

(** X11. On an application whose tree is empty, as it is before
    [InitChain] or any transaction has written to a fresh store, [Commit]
    panics. *)
Theorem Commit_empty_tree_panics `{Externals} (app : PersistentApplication) :
  iavl.tree (state app) = ∅ →
  ∃ msg, Commit app = Panic msg.
Proof.
  intros Hempty. unfold Commit, iavl.SaveVersion. run.
  destruct (bool_decide _); [by eexists |].
  rewrite bool_decide_eq_true_2 by done. by eexists.
Qed.

Lemma Commit_empty_tree_panics_witness :
  ∃ msg, @Commit Sample.externals empty_app = Panic msg.
Proof.
  apply (@Commit_empty_tree_panics Sample.externals empty_app).
  reflexivity.
Defined.

Lemma Commit_versions_ok `{Externals} (app : PersistentApplication) :
  versions_ok (state app) →
  iavl.tree (state app) ≠ ∅ →
  iavl.latestVersion (state app) + 1 < 2 ^ 64 →
  Commit app =
  Return (types.mkResponseCommit code.Ok (rootHash (iavl.tree (state app))))
    (with_state (λ st,
       iavl.mkTree (iavl.tree st) (iavl.latestVersion st + 1)
         (<[iavl.latestVersion st + 1 := iavl.tree st]> (iavl.versions st)))
       app).
Proof.
  intros [Hrange Hsaved] Hne Hlt. unfold Commit, iavl.SaveVersion. run.
  unfold iavl.LatestVersion. rewrite Z.mod_small by lia.
  rewrite bool_decide_eq_false_2.
  2: { intros Hs. apply Hsaved in Hs. lia. }
  rewrite bool_decide_eq_false_2 by done.
  destruct (Z.eqb_spec (iavl.latestVersion (state app) + 1) 0); [lia |].
  done.
Qed.

(** X12. On a tree whose saved versions lie between 1 and the latest
    version, [Commit] never meets an already saved version: if the tree is
    not empty and the counter does not overflow it returns, the latest
    version is one more, every version saved before is still there with
    the same contents, and the saved versions again lie between 1 and the
    latest version. *)
Theorem Commit_keeps_versions_ok `{Externals} (app : PersistentApplication) :
  versions_ok (state app) →
  iavl.tree (state app) ≠ ∅ →
  iavl.latestVersion (state app) + 1 < 2 ^ 64 →
  ∃ res app', Commit app = Return res app'
    ∧ versions_ok (state app')
    ∧ iavl.LatestVersion (state app')
      = iavl.LatestVersion (state app) + 1
    ∧ iavl.versions (state app') !! iavl.LatestVersion (state app')
      = Some (iavl.tree (state app))
    ∧ ∀ v m, iavl.versions (state app) !! v = Some m →
             iavl.versions (state app') !! v = Some m.
Proof.
  intros Hok Hne Hlt. rewrite Commit_versions_ok by done.
  destruct Hok as [Hrange Hsaved].
  eexists _, _. split; [done |]. simpl. unfold iavl.LatestVersion.
  split; [|split; [done |split]].
  - split; simpl; [lia |]. intros v Hv.
    destruct (decide (iavl.latestVersion (state app) + 1 = v)) as [<-|Hne'].
    + lia.
    + rewrite lookup_insert_ne in Hv by done. apply Hsaved in Hv. lia.
  - simpl. apply lookup_insert_eq.
  - intros v m Hv. rewrite lookup_insert_ne; [done |].
    intros <-. assert (is_Some (iavl.versions (state app)
      !! (iavl.latestVersion (state app) + 1))) as Hs by (by eexists).
    apply Hsaved in Hs. lia.
Qed.

Lemma sample_tree_versions_ok : versions_ok sample_tree.
Proof.
  split; [vm_compute; split; congruence |].
  intros v [m Hm]. vm_compute in Hm. discriminate Hm.
Defined.

Lemma Commit_keeps_versions_ok_witness :
  ∃ res app', @Commit Sample.externals sample_app = Return res app'
    ∧ versions_ok (state app').
Proof.
  destruct (@Commit_keeps_versions_ok Sample.externals sample_app)
    as (res & app' & Hrun & Hok & _).
  - exact sample_tree_versions_ok.
  - vm_compute. discriminate.
  - vm_compute. reflexivity.
  - exists res, app'. split; [exact Hrun | exact Hok].
Defined.

(** X13. A block without transactions keeps the root hash: after a
    [Commit], the cycle BeginBlock, EndBlock, Commit hands out no
    validator update and returns the same hash under the next version. *)
Theorem empty_block_keeps_hash `{Externals} (app : PersistentApplication) :
  versions_ok (state app) →
  iavl.tree (state app) ≠ ∅ →
  iavl.latestVersion (state app) + 2 < 2 ^ 64 →
  ∃ c1 c2 app',
    (Commit ≫= λ c1, BeginBlock ≫= λ _, EndBlock ≫= λ updates,
     Commit ≫= λ c2, mret (c1, updates, c2)) app
    = Return (c1, [], c2) app'
    ∧ types.CommitCode c2 = code.Ok
    ∧ types.CommitData c2 = types.CommitData c1
    ∧ iavl.LatestVersion (state app')
      = iavl.LatestVersion (state app) + 2.
Proof.
  intros Hok Hne Hlt.
  unfold mbind at 1, M_bind at 1. rewrite Commit_versions_ok by (done || lia).
  unfold BeginBlock, EndBlock. unfold mbind at 1, M_bind at 1.
  unfold modify at 1. unfold mbind at 1, M_bind at 1. unfold gets at 1.
  unfold mbind at 1, M_bind at 1.
  rewrite Commit_versions_ok; simpl.
  - eexists _, _, _. split; [done |]. simpl. unfold iavl.LatestVersion. simpl.
    split; [done |]. split; [done |]. lia.
  - destruct Hok as [Hrange Hsaved]. split; simpl; [lia |]. intros v Hv.
    destruct (decide (iavl.latestVersion (state app) + 1 = v)) as [<-|Hne'].
    + lia.
    + rewrite lookup_insert_ne in Hv by done. apply Hsaved in Hv. lia.
  - done.
  - lia.
Qed.

Lemma empty_block_keeps_hash_witness :
  ∃ c1 c2 app',
    (@Commit Sample.externals ≫= λ c1, BeginBlock ≫= λ _,
     EndBlock ≫= λ updates,
     @Commit Sample.externals ≫= λ c2, mret (c1, updates, c2)) sample_app
    = Return (c1, [], c2) app'
    ∧ types.CommitData c2 = types.CommitData c1.
Proof.
  destruct (@empty_block_keeps_hash Sample.externals sample_app)
    as (c1 & c2 & app' & Hrun & _ & Hhash & _).
  - exact sample_tree_versions_ok.
  - vm_compute. discriminate.
  - vm_compute. reflexivity.
  - exists c1, c2, app'. split; [exact Hrun | exact Hhash].
Defined.

(** X14. Only [Commit] moves the version: provided [DbSave] leaves the
    version fields of the tree alone, no sequence of deliveries changes
    the latest version or the saved versions, so the [Commit] that closes
    the block saves exactly the next version. *)
Theorem DeliverTxs_keep_versions `{Externals}
    (txs : list string) (app : PersistentApplication) :
  (∀ tx t, iavl.latestVersion (DbSave tx t) = iavl.latestVersion t
           ∧ iavl.versions (DbSave tx t) = iavl.versions t) →
  ∃ rs app', DeliverTxs txs app = Return rs app'
    ∧ iavl.latestVersion (state app') = iavl.latestVersion (state app)
    ∧ iavl.versions (state app') = iavl.versions (state app)
    ∧ (versions_ok (state app) → versions_ok (state app')).
Proof.
  intros Hdb.
  assert (Hone : ∀ tx a, ∃ r a', DeliverTx tx a = Return r a'
    ∧ iavl.latestVersion (state a') = iavl.latestVersion (state a)
    ∧ iavl.versions (state a') = iavl.versions (state a)).
  { intros tx a. destruct (Type_ (FromBytes tx).1) eqn:Hty.
    - unfold DeliverTx. rewrite Hty. run. eexists _, _.
      split; [done |]. simpl. apply Hdb.
    - unfold DeliverTx. rewrite Hty. run. by eexists _, _.
    - destruct (decide (types.Power (ToValidator (FromBytes tx).1).1 = 0)).
      + rewrite DeliverTx_validator_remove by done.
        destruct (iavl.Has _ _); by eexists _, _.
      + rewrite DeliverTx_validator_add by done.
        destruct (WriteMessage _); by eexists _, _.
    - unfold DeliverTx. rewrite Hty. run. by eexists _, _. }
  assert (Hall : ∃ rs app', DeliverTxs txs app = Return rs app'
    ∧ iavl.latestVersion (state app') = iavl.latestVersion (state app)
    ∧ iavl.versions (state app') = iavl.versions (state app)).
  { revert app. induction txs as [|tx txs IH]; intros app; simpl.
    - by exists [], app.
    - destruct (Hone tx app) as (r & app1 & Hr & Hl1 & Hv1).
      destruct (IH app1) as (rs & app2 & Hrs & Hl2 & Hv2).
      exists (r :: rs), app2. unfold mbind, M_bind. rewrite Hr, Hrs.
      split; [done |]. split; congruence. }
  destruct Hall as (rs & app' & Hrun & Hl & Hv).
  exists rs, app'. split; [done |]. split; [done |]. split; [done |].
  unfold versions_ok. by rewrite Hl, Hv.
Qed.

Lemma DeliverTxs_keep_versions_witness :
  ∃ rs app',
    @DeliverTxs Sample.externals
      ["db|||k=v"; sample_add_tx; sample_unknown_tx] sample_app
    = Return rs app'
    ∧ iavl.latestVersion (state app') = 0.
Proof.
  destruct (@DeliverTxs_keep_versions Sample.externals
              ["db|||k=v"; sample_add_tx; sample_unknown_tx] sample_app)
    as (rs & app' & Hrun & Hl & _).
  - intros tx t. unfold DbSave. simpl. unfold Sample.DbSave.
    destruct (Sample.cut "=" (Body tx)) as [[k v]|]; split; reflexivity.
  - exists rs, app'. split; [exact Hrun | exact Hl].
Defined.

(** ** Info *)

(** X15. [Info] changes nothing, and right after a [Commit] it reports
    what that [Commit] returned: the height is the version just saved, the
    application hash is the committed root hash, and the data gives the
    number of keys. *)
Theorem Info_after_Commit `{Externals} (app : PersistentApplication) :
  versions_ok (state app) →
  iavl.tree (state app) ≠ ∅ →
  iavl.LatestVersion (state app) + 1 < 2 ^ 63 →
  ∃ c i app',
    (Commit ≫= λ c, Info ≫= λ i, mret (c, i)) app = Return (c, i) app'
    ∧ Commit app = Return c app'
    ∧ LastBlockHeight i = iavl.LatestVersion (state app) + 1
    ∧ LastBlockAppHash i = types.CommitData c
    ∧ InfoData i
      = "{" +:+ dquote +:+ "size" +:+ dquote +:+ ":"
        +:+ Itoa (Z.of_nat (size (iavl.tree (state app)))) +:+ "}".
Proof.
  intros Hok Hne Hlt. unfold iavl.LatestVersion in *.
  unfold mbind at 1, M_bind at 1.
  rewrite Commit_versions_ok by (done || lia).
  unfold Info. run. eexists _, _, _. split; [done |]. split; [done |].
  simpl. unfold int64_of_uint64, iavl.Hash, iavl_Size, iavl.LatestVersion.
  simpl.
  destruct (Z.ltb_spec (iavl.latestVersion (state app) + 1) (2 ^ 63));
    [done | lia].
Qed.

Lemma Info_after_Commit_witness :
  ∃ c i app',
    (@Commit Sample.externals ≫= λ c, @Info Sample.externals ≫= λ i,
     mret (c, i)) sample_app = Return (c, i) app'
    ∧ LastBlockHeight i = 1
    ∧ LastBlockAppHash i = types.CommitData c.
Proof.
  destruct (@Info_after_Commit Sample.externals sample_app)
    as (c & i & app' & Hrun & _ & Hh & Hhash & _).
  - exact sample_tree_versions_ok.
  - vm_compute. discriminate.
  - vm_compute. reflexivity.
  - exists c, i, app'. split; [exact Hrun |]. split; [exact Hh | exact Hhash].
Defined.

(** ** InitChain *)

(** [updateValidator], by cases. *)
Lemma updateValidator_cases `{Externals}
    (v : types.Validator) (app : PersistentApplication) :
  let key := "val:" +:+ types.PubKey v in
  updateValidator v app =
  if types.Power v =? 0 then
    if iavl.Has key (state app) then
      Return ok_response
        (mkApp (iavl.Remove key (state app)) (ValUpdates app ++ [v])
               (GenesisValidators app))
    else
      Return (types.mkResponse code.CodeTypeUnauthorized
                ("Cannot remove non-existent validator " +:+ fmtX key)) app
  else
    match WriteMessage v with
    | inl bz =>
        Return ok_response
          (mkApp (iavl.Set_ key bz (state app)) (ValUpdates app ++ [v])
                 (GenesisValidators app))
    | inr err =>
        Return (encoding_error ("Error encoding validator: " +:+ err)) app
    end.
Proof.
  intros key. unfold updateValidator. fold key. run.
  destruct (types.Power v =? 0).
  - by destruct (iavl.Has key (state app)).
  - by destruct (WriteMessage v).
Qed.

Lemma updateValidator_accepted `{Externals}
    (v : types.Validator) (app : PersistentApplication) :
  accepted (state app) v →
  ∃ app', updateValidator v app = Return ok_response app'
    ∧ GenesisValidators app' = GenesisValidators app.
Proof.
  intros Hacc. rewrite updateValidator_cases.
  destruct Hacc as [[Hz Hpres] | [Hnz [bz Hbz]]].
  - rewrite Hz. cbn [Z.eqb].
    rewrite (proj2 (Has_true _ (state app)) Hpres). by eexists.
  - destruct (Z.eqb_spec (types.Power v) 0); [done |].
    rewrite Hbz. by eexists.
Qed.

Lemma updateValidator_not_accepted `{Externals}
    (v : types.Validator) (app : PersistentApplication) :
  ¬ accepted (state app) v →
  ∃ res, updateValidator v app = Return res app ∧ types.IsErr res = true.
Proof.
  intros Hrej. rewrite updateValidator_cases.
  destruct (Z.eqb_spec (types.Power v) 0) as [Hz|Hnz].
  - destruct (iavl.Has _ _) eqn:Hhas; [|by eexists].
    apply Has_true in Hhas. exfalso. apply Hrej. by left.
  - destruct (WriteMessage v) as [bz|err] eqn:Hw; [|by eexists].
    exfalso. apply Hrej. right. split; [done |]. by exists bz.
Qed.

Lemma accepted_or_not `{Externals}
    (t : iavl.VersionedTree) (v : types.Validator) :
  accepted t v ∨ ¬ accepted t v.
Proof.
  unfold accepted. destruct (decide (types.Power v = 0)) as [Hz|Hnz].
  - destruct (iavl.tree t !! ("val:" +:+ types.PubKey v)) as [bz|] eqn:Hk.
    + left. left. split; [done | by eexists].
    + right. intros [[_ [? ?]] | [? _]]; done.
  - destruct (WriteMessage v) as [bz|err] eqn:Hw.
    + left. right. split; [done | by exists bz].
    + right. intros [[? _] | [_ [bz ?]]]; done.
Qed.

(** X16. On an application whose genesis map is nil, which is how
    [NewPersistentApplication] leaves it, [InitChain] panics on the
    assignment to the map as soon as one of the validators goes through
    [updateValidator]; when none does, it returns and nothing has
    changed. *)
Theorem InitChain_nil_map `{Externals}
    (validators : list types.Validator) (app : PersistentApplication) :
  GenesisValidators app = None →
  (Exists (accepted (state app)) validators →
   InitChain validators app = Panic "assignment to entry in nil map")
  ∧ (Forall (λ v, ¬ accepted (state app) v) validators →
     InitChain validators app = Return tt app).
Proof.
  intros Hnil. induction validators as [|v rest [IHp IHr]]; simpl.
  - split; [by intros ?%Exists_nil | done].
  - split.
    + intros Hex. unfold mbind at 1, M_bind at 1.
      destruct (accepted_or_not (state app) v) as [Hacc|Hrej].
      * destruct (updateValidator_accepted v app Hacc) as (app' & -> & Hg).
        cbn. unfold mbind, M_bind, genesis_assign. by rewrite Hg, Hnil.
      * destruct (updateValidator_not_accepted v app Hrej) as (res & -> & ->).
        cbn. apply IHp. by apply Exists_cons in Hex as [?|?].
    + intros Hall. apply Forall_cons in Hall as [Hrej Hall].
      unfold mbind at 1, M_bind at 1.
      destruct (updateValidator_not_accepted v app Hrej) as (res & -> & ->).
      cbn. by apply IHr.
Qed.

Lemma InitChain_nil_map_witness :
  @InitChain Sample.externals [V1] (NewPersistentApplication sample_tree)
  = Panic "assignment to entry in nil map".
Proof.
  refine (proj1 (@InitChain_nil_map Sample.externals [V1]
                   (NewPersistentApplication sample_tree) eq_refl) _).
  apply Exists_cons_hd. right. split; [discriminate |].
  eexists. reflexivity.
Defined.

(** What [InitChain] leaves alone and what it sets, for validators that
    are all additions [WriteMessage] can encode. *)
Lemma InitChain_additions `{Externals}
    (validators : list types.Validator) (app : PersistentApplication)
    (g : gmap string Z) :
  GenesisValidators app = Some g →
  Forall (λ v, types.Power v ≠ 0 ∧ ∃ bz, WriteMessage v = inl bz)
    validators →
  NoDup (types.PubKey <$> validators) →
  ∃ app' g',
    InitChain validators app = Return tt app'
    ∧ GenesisValidators app' = Some g'
    ∧ ValUpdates app' = (ValUpdates app ++ validators)%list
    ∧ (∀ k, k ∉ types.PubKey <$> validators →
            g' !! k = g !! k
            ∧ iavl.tree (state app') !! ("val:" +:+ k)
              = iavl.tree (state app) !! ("val:" +:+ k))
    ∧ ∀ v, v ∈ validators →
           g' !! types.PubKey v = Some (types.Power v)
           ∧ ∃ bz, WriteMessage v = inl bz
               ∧ iavl.tree (state app') !! ("val:" +:+ types.PubKey v)
                 = Some bz.
Proof.
  revert app g.
  induction validators as [|v rest IH]; intros app g Hg Hall Hnd.
  - exists app, g. simpl. split; [done |]. split; [done |].
    split; [by rewrite app_nil_r |]. split; [done |].
    by intros v ?%elem_of_nil.
  - apply Forall_cons in Hall as [[Hnz [bz Hbz]] Hall].
    rewrite fmap_cons in Hnd. apply NoDup_cons in Hnd as [Hfresh Hnd].
    destruct (IH (mkApp (iavl.Set_ ("val:" +:+ types.PubKey v) bz (state app))
                        (ValUpdates app ++ [v])
                        (Some (<[types.PubKey v := types.Power v]> g)))
                 (<[types.PubKey v := types.Power v]> g) eq_refl Hall Hnd)
      as (app' & g' & Hrun & Hg' & Hups & Hother & Hthese).
    exists app', g'. split; [|split; [done |split; [|split]]].
    + cbn [InitChain]. unfold mbind at 1, M_bind at 1.
      rewrite updateValidator_cases.
      destruct (Z.eqb_spec (types.Power v) 0); [done |]. rewrite Hbz.
      cbn. unfold mbind at 1, M_bind at 1, genesis_assign. cbn [GenesisValidators].
      rewrite Hg. exact Hrun.
    + rewrite Hups. simpl. by rewrite <- app_assoc.
    + intros k Hk. rewrite fmap_cons in Hk.
      apply not_elem_of_cons in Hk as [Hne Hk].
      destruct (Hother k Hk) as [Hgk Htk]. simpl in Htk.
      rewrite Hgk, Htk. rewrite !lookup_insert_ne; [done | | done].
      simpl. intros [= ?]. done.
    + intros v' Hv'. apply elem_of_cons in Hv' as [->|Hv'].
      * destruct (Hother (types.PubKey v) Hfresh) as [Hgk Htk].
        simpl in Htk. rewrite Hgk, Htk, !lookup_insert_eq.
        split; [done |]. by exists bz.
      * by apply Hthese.
Qed.

(** X17. On a non-nil genesis map, [InitChain] with validators of
    non-zero power that [WriteMessage] encodes, no public key twice,
    returns; every validator is then in the genesis map with its power,
    its encoded record is in the store under ["val:" + PubKey], and the
    validators have been appended to [ValUpdates] in order. *)
Theorem InitChain_registers_validators `{Externals}
    (validators : list types.Validator) (app : PersistentApplication) :
  GenesisValidators app ≠ None →
  Forall (λ v, types.Power v ≠ 0 ∧ ∃ bz, WriteMessage v = inl bz)
    validators →
  NoDup (types.PubKey <$> validators) →
  ∃ app',
    InitChain validators app = Return tt app'
    ∧ ValUpdates app' = (ValUpdates app ++ validators)%list
    ∧ ∀ v, v ∈ validators →
           genesis_power app' (types.PubKey v) = types.Power v
           ∧ ∃ bz, WriteMessage v = inl bz
               ∧ iavl.tree (state app') !! ("val:" +:+ types.PubKey v)
                 = Some bz.
Proof.
  intros Hg Hall Hnd.
  destruct (GenesisValidators app) as [g|] eqn:Hgm; [|done].
  destruct (InitChain_additions validators app g Hgm Hall Hnd)
    as (app' & g' & Hrun & Hg' & Hups & _ & Hthese).
  exists app'. split; [done |]. split; [done |].
  intros v Hv. destruct (Hthese v Hv) as [Hgv Htree].
  split; [|done]. unfold genesis_power. by rewrite Hg', Hgv.
Qed.

Lemma InitChain_registers_validators_witness :
  ∃ app',
    @InitChain Sample.externals [V1; types.mkValidator "V2" 3] sample_app
    = Return tt app'
    ∧ genesis_power app' "V2" = 3.
Proof.
  destruct (@InitChain_registers_validators Sample.externals
              [V1; types.mkValidator "V2" 3] sample_app)
    as (app' & Hrun & _ & Heach).
  - discriminate.
  - repeat (apply Forall_cons; split;
            [split; [discriminate | eexists; reflexivity] |]).
    apply Forall_nil_2.
  - simpl. apply NoDup_cons. split; [|apply NoDup_singleton].
    intros Hin. apply list_elem_of_singleton in Hin. discriminate Hin.
  - exists app'. split; [exact Hrun |].
    apply (Heach (types.mkValidator "V2" 3)).
    apply list_elem_of_further, list_elem_of_here.
Defined.

(** ** Validators *)

Lemma decode_validators_length `{Externals} kvs vs :
  decode_validators kvs = inl vs →
  length vs
  = length (filter (λ kv : string * string, isValidatorTx kv.1 = true) kvs).
Proof.
  revert vs. induction kvs as [|[k v] kvs IH]; intros vs Hdec; simpl in Hdec.
  - by injection Hdec as <-.
  - rewrite filter_cons. simpl. destruct (isValidatorTx k) eqn:Hpre.
    + destruct (ReadMessage v); [|done].
      destruct (decode_validators kvs) as [vs'|]; [|done].
      injection Hdec as <-. rewrite decide_True by done. simpl.
      by rewrite (IH vs').
    + rewrite decide_False by done. by apply IH.
Qed.

Lemma decode_validators_error `{Externals} kvs err :
  decode_validators kvs = inr err →
  ∃ k v, (k, v) ∈ kvs ∧ isValidatorTx k = true ∧ ReadMessage v = inr err.
Proof.
  induction kvs as [|[k v] kvs IH]; intros Hdec; simpl in Hdec; [done |].
  destruct (isValidatorTx k) eqn:Hpre.
  - destruct (ReadMessage v) as [r|e] eqn:Hr.
    + destruct (decode_validators kvs) as [vs'|e'] eqn:Hd; [done |].
      injection Hdec as ->. destruct (IH eq_refl) as (k' & v' & Hin & ?).
      exists k', v'. split; [by apply list_elem_of_further | done].
    + injection Hdec as ->. exists k, v.
      split; [apply list_elem_of_here | done].
  - destruct (IH Hdec) as (k' & v' & Hin & ?).
    exists k', v'. split; [by apply list_elem_of_further | done].
Qed.

(** X18. [Validators] panics exactly when some value stored under a key
    with the validator prefix does not decode; keys without the prefix
    are never decoded. When it returns, the application is unchanged and
    the list has one record for each key of the store that has the
    prefix. *)
Theorem Validators_panics_iff `{Externals} (app : PersistentApplication) :
  ((∃ msg, Validators app = Panic msg) ↔
   ∃ k v err, iavl.tree (state app) !! k = Some v
              ∧ isValidatorTx k = true ∧ ReadMessage v = inr err)
  ∧ ∀ vs app', Validators app = Return vs app' →
      app' = app
      ∧ length vs
        = length (filter (λ kv : string * string, isValidatorTx kv.1 = true)
                    (map_to_list (iavl.tree (state app)))).
Proof.
  rewrite Validators_decode. split; [split |].
  - intros [msg Hp].
    destruct (decode_validators _) as [vs|err] eqn:Hdec; [done |].
    destruct (decode_validators_error _ _ Hdec) as (k & v & Hin & Hpre & Hr).
    apply elem_of_items in Hin. by exists k, v, err.
  - intros (k & v & err & Hkv & Hpre & Hr).
    destruct (decode_validators _) as [vs|err'] eqn:Hdec; [|by eexists].
    apply elem_of_items in Hkv.
    destruct (decode_validators_elem _ _ _ _ Hdec Hkv Hpre) as (r & Hr' & _).
    congruence.
  - intros vs app'.
    destruct (decode_validators _) as [vs'|] eqn:Hdec; [|done].
    intros [= <- <-]. split; [done |].
    rewrite (decode_validators_length _ _ Hdec). unfold iavl.items.
    by rewrite merge_sort_Permutation.
Qed.

(** ** Validator transactions in text form *)

Lemma Split_no_sep (s : string) (sep : ascii) :
  has_byte sep s = false → Split s sep = [s].
Proof.
  induction s as [|c s IH]; simpl; [done |].
  intros [Hc Hs]%orb_false_iff. rewrite Hc. by rewrite IH.
Qed.

Lemma Split_app (a b : string) (sep : ascii) :
  has_byte sep a = false →
  Split (a +:+ String sep b) sep = a :: Split b sep.
Proof.
  induction a as [|c a IH]; simpl.
  - intros _. by rewrite Ascii.eqb_refl.
  - intros [Hc Ha]%orb_false_iff. rewrite Hc. by rewrite IH.
Qed.

Lemma hex_digit_byte (c : ascii) :
  fromHexChar (hex_digit (N_of_ascii c / 16)) = Some (N_of_ascii c / 16)%N
  ∧ fromHexChar (hex_digit (N_of_ascii c mod 16))
    = Some (N_of_ascii c mod 16)%N
  ∧ ascii_of_N (16 * (N_of_ascii c / 16) + N_of_ascii c mod 16) = c
  ∧ Ascii.eqb (hex_digit (N_of_ascii c / 16)) "/" = false
  ∧ Ascii.eqb (hex_digit (N_of_ascii c mod 16)) "/" = false.
Proof.
  destruct c as [[] [] [] [] [] [] [] []]; vm_compute; repeat split.
Qed.

(** [hex.DecodeString] inverts the [%X] verb. *)
Lemma DecodeString_fmtX (s : string) : DecodeString (fmtX s) = Some s.
Proof.
  induction s as [|c s IH]; [done |].
  destruct (hex_digit_byte c) as (Hhi & Hlo & Hc & _).
  cbn [fmtX DecodeString]. by rewrite Hhi, Hlo, IH, Hc.
Qed.

Lemma fmtX_no_slash (s : string) : has_byte "/" (fmtX s) = false.
Proof.
  induction s as [|c s IH]; [done |].
  destruct (hex_digit_byte c) as (_ & _ & _ & Hhi & Hlo).
  cbn [fmtX has_byte]. by rewrite Hhi, Hlo, IH.
Qed.

Lemma string_of_uint_no_slash (d : Decimal.uint) :
  has_byte "/" (NilEmpty.string_of_uint d) = false.
Proof. induction d; simpl; done. Qed.

Lemma Itoa_no_slash (i : Z) : has_byte "/" (Itoa i) = false.
Proof.
  unfold Itoa, NilZero.string_of_int, NilZero.string_of_uint.
  destruct (Z.to_int i) as [d|d]; destruct d; simpl; try done;
    apply string_of_uint_no_slash.
Qed.

Lemma ParseInt_digits (d : Decimal.uint) :
  d ≠ Decimal.Nil →
  ParseInt (NilEmpty.string_of_uint d) =
  if (- 2 ^ 63 <=? Z.of_uint d) && (Z.of_uint d <? 2 ^ 63)
  then Some (Z.of_uint d) else None.
Proof.
  intros Hd. pose proof (NilEmpty.usu d) as Hu.
  destruct d; [done | ..]; unfold ParseInt;
    cbn [NilEmpty.string_of_uint Ascii.eqb Bool.eqb orb andb] in Hu |- *;
    by rewrite Hu.
Qed.

Lemma ParseInt_minus_digits (d : Decimal.uint) :
  d ≠ Decimal.Nil →
  ParseInt (String "-" (NilEmpty.string_of_uint d)) =
  if (- 2 ^ 63 <=? - Z.of_uint d) && (- Z.of_uint d <? 2 ^ 63)
  then Some (- Z.of_uint d) else None.
Proof.
  intros Hd. pose proof (NilEmpty.usu d) as Hu.
  destruct d; [done | ..]; unfold ParseInt;
    cbn [NilEmpty.string_of_uint Ascii.eqb Bool.eqb orb andb] in Hu |- *;
    by rewrite Hu.
Qed.

(** [strconv.ParseInt] inverts [strconv.Itoa] on [int64]. *)
Lemma ParseInt_Itoa (i : Z) :
  - 2 ^ 63 ≤ i < 2 ^ 63 → ParseInt (Itoa i) = Some i.
Proof.
  intros Hrange. unfold Itoa.
  pose proof (DecimalZ.of_to i) as Hof.
  assert (Hin : (- 2 ^ 63 <=? i) && (i <? 2 ^ 63) = true).
  { apply andb_true_iff. split; [apply Z.leb_le | apply Z.ltb_lt]; lia. }
  destruct i as [|p|p]; [vm_compute; reflexivity | |].
  - cbn [Z.to_int Z.of_int] in Hof |- *.
    pose proof (DecimalPos.Unsigned.to_uint_nonnil p) as Hnn.
    unfold NilZero.string_of_int, NilZero.string_of_uint.
    destruct (Pos.to_uint p) eqn:Hp; [done | ..];
      rewrite <- Hp in *; rewrite ParseInt_digits, Hof by done;
      by rewrite Hin.
  - cbn [Z.to_int Z.of_int] in Hof |- *.
    pose proof (DecimalPos.Unsigned.to_uint_nonnil p) as Hnn.
    unfold NilZero.string_of_int, NilZero.string_of_uint.
    destruct (Pos.to_uint p) eqn:Hp; [done | ..];
      rewrite <- Hp in *; rewrite ParseInt_minus_digits, Hof by done;
      by rewrite Hin.
Qed.

Lemma ParseInt_range (s : string) (v : Z) :
  ParseInt s = Some v → - 2 ^ 63 ≤ v < 2 ^ 63.
Proof.
  unfold ParseInt. destruct s as [|c rest]; [done |].
  destruct (if Ascii.eqb c "+" || Ascii.eqb c "-" then rest else String c rest);
    [done |].
  destruct (NilEmpty.uint_of_string _) as [d|]; [|done].
  destruct (_ && _) eqn:Hin; [|done]. intros [= <-].
  apply andb_true_iff in Hin as [Hlo Hhi].
  apply Z.leb_le in Hlo. apply Z.ltb_lt in Hhi. lia.
Qed.

(** X19. A payload [MakeValSetChangeTx] builds is read back by
    [execValidatorTx] as the same public key and power: when the prefix
    has the four bytes of ["val:"], go-crypto accepts the key and the
    power fits [int64], [execValidatorTx] on it is [updateValidator] on
    that validator. *)
Theorem execValidatorTx_MakeValSetChangeTx `{Externals} `{GoCrypto}
    (pubkey : string) (power : Z) (app : PersistentApplication) :
  String.length ValidatorSetChangePrefix = 4%nat →
  PubKeyFromBytes pubkey = None →
  - 2 ^ 63 ≤ power < 2 ^ 63 →
  execValidatorTx (MakeValSetChangeTx pubkey power) app
  = updateValidator (types.mkValidator pubkey power) app.
Proof.
  intros Hlen Hkey Hrange. unfold execValidatorTx. rewrite Hlen.
  change (MakeValSetChangeTx pubkey power)
    with (String "v" (String "a" (String "l" (String ":"
            (fmtX pubkey +:+ String "/" (Itoa power)))))).
  cbn [String.length Nat.ltb Nat.leb string_drop].
  rewrite Split_app by apply fmtX_no_slash.
  rewrite Split_no_sep by apply Itoa_no_slash.
  by rewrite DecodeString_fmtX, Hkey, ParseInt_Itoa.
Qed.

Lemma execValidatorTx_MakeValSetChangeTx_witness :
  @execValidatorTx Sample.externals (λ _, None)
    (MakeValSetChangeTx "K" (-15)) sample_app
  = @updateValidator Sample.externals (types.mkValidator "K" (-15))
      sample_app.
Proof.
  refine (@execValidatorTx_MakeValSetChangeTx Sample.externals (λ _, None)
            "K" (-15) sample_app eq_refl eq_refl _).
  lia.
Defined.

(** X20. [execValidatorTx] panics on a payload shorter than the prefix.
    On any other payload it either answers [CodeTypeEncodingError] and
    leaves the application unchanged, or it is [updateValidator] on a
    validator whose key decoded from hexadecimal and was accepted by
    go-crypto and whose power fits [int64]. *)
Theorem execValidatorTx_cases `{Externals} `{GoCrypto}
    (tx : string) (app : PersistentApplication) :
  ((String.length tx < String.length ValidatorSetChangePrefix)%nat →
   execValidatorTx tx app = Panic "slice bounds out of range")
  ∧ ((String.length ValidatorSetChangePrefix ≤ String.length tx)%nat →
     (∃ log, execValidatorTx tx app = Return (encoding_error log) app)
     ∨ ∃ pubkeyS powerS pubkey power,
         Split (string_drop (String.length ValidatorSetChangePrefix) tx) "/"
           = [pubkeyS; powerS]
         ∧ DecodeString pubkeyS = Some pubkey
         ∧ PubKeyFromBytes pubkey = None
         ∧ ParseInt powerS = Some power
         ∧ - 2 ^ 63 ≤ power < 2 ^ 63
         ∧ execValidatorTx tx app
           = updateValidator (types.mkValidator pubkey power) app).
Proof.
  unfold execValidatorTx. split.
  - intros Hlt. apply Nat.ltb_lt in Hlt. by rewrite Hlt.
  - intros Hle. rewrite (proj2 (Nat.ltb_ge _ _) Hle).
    destruct (Split _ _) as [|pubkeyS [|powerS [|? ?]]] eqn:Hsplit;
      try (left; by eexists).
    destruct (DecodeString pubkeyS) as [pubkey|] eqn:Hhex;
      [|left; by eexists].
    destruct (PubKeyFromBytes pubkey) eqn:Hkey; [left; by eexists |].
    destruct (ParseInt powerS) as [power|] eqn:Hint; [|left; by eexists].
    right. exists pubkeyS, powerS, pubkey, power.
    repeat split; try done; by apply ParseInt_range in Hint as [? ?].
Qed.

Lemma execValidatorTx_cases_witness :
  @execValidatorTx Sample.externals (λ _, None) "va" sample_app
  = Panic "slice bounds out of range"
  ∧ ∃ log, @execValidatorTx Sample.externals (λ _, None) "val:4B/5/6"
             sample_app = Return (encoding_error log) sample_app.
Proof.
  split.
  - apply (proj1 (@execValidatorTx_cases Sample.externals (λ _, None)
                    "va" sample_app)).
    vm_compute. lia.
  - destruct (proj2 (@execValidatorTx_cases Sample.externals (λ _, None)
                       "val:4B/5/6" sample_app))
      as [Herr | (a & b & c & d & Hsplit & _)].
    + vm_compute. lia.
    + exact Herr.
    + vm_compute in Hsplit. discriminate Hsplit.
Defined.

(** ** The enumeration across validator transactions *)

(** Every value stored under the validator prefix decodes. *)
Lemma Validators_returns_iff `{Externals} (app : PersistentApplication) :
  (∃ vs, Validators app = Return vs app) ↔
  ∀ k v, iavl.tree (state app) !! k = Some v → isValidatorTx k = true →
         ∃ r, ReadMessage v = inl r.
Proof.
  rewrite Validators_decode. split.
  - intros [vs Hvs] k v Hkv Hpre.
    destruct (decode_validators _) as [vs'|] eqn:Hdec; [|done].
    apply elem_of_items in Hkv.
    destruct (decode_validators_elem _ _ _ _ Hdec Hkv Hpre) as (r & Hr & _).
    by exists r.
  - intros Hall.
    destruct (decode_validators_total (iavl.items (state app))) as [vs ->].
    + intros k v Hkv. apply Hall. by apply elem_of_items.
    + by exists vs.
Qed.

(** X21. Validator transactions never break the enumeration: if
    [Validators] returns on an application, it still returns after any
    sequence of deliveries of ValidatorSet transactions and transactions
    of unrecognised type, provided [ReadMessage] decodes what
    [WriteMessage] produces for the records these transactions carry. *)
Theorem validator_txs_keep_enumeration `{Externals}
    (txs : list string) (app : PersistentApplication) :
  Forall (λ tx,
    (Type_ (FromBytes tx).1 = ValidatorSet ∨ Type_ (FromBytes tx).1 = Other)
    ∧ ∀ bz, WriteMessage (ToValidator (FromBytes tx).1).1 = inl bz →
            ∃ r, ReadMessage bz = inl r) txs →
  (∃ vs, Validators app = Return vs app) →
  ∃ rs app' vs,
    DeliverTxs txs app = Return rs app'
    ∧ Validators app' = Return vs app'.
Proof.
  intros Htxs. revert app.
  induction txs as [|tx txs IH]; intros app Hret; simpl.
  - destruct Hret as [vs Hvs]. by exists [], app, vs.
  - apply Forall_cons in Htxs as [[Hty Hcodec] Htxs].
    assert (Hstep : ∃ r app1, DeliverTx tx app = Return r app1
              ∧ ∃ vs, Validators app1 = Return vs app1).
    { pose proof (proj1 (Validators_returns_iff app) Hret) as Hall.
      destruct Hty as [Hty|Hty].
      - destruct (decide (types.Power (ToValidator (FromBytes tx).1).1 = 0)).
        + rewrite DeliverTx_validator_remove by done.
          destruct (iavl.Has _ _); eexists _, _; (split; [done |]);
            apply Validators_returns_iff; [|done].
          simpl. intros k v Hkv. apply lookup_delete_Some in Hkv as [_ Hkv].
          by apply Hall.
        + rewrite DeliverTx_validator_add by done.
          destruct (WriteMessage _) as [bz|err] eqn:Hw;
            eexists _, _; (split; [done |]);
            apply Validators_returns_iff; [|done].
          simpl. intros k v Hkv Hpre.
          apply lookup_insert_Some in Hkv as [[_ <-] | [_ Hkv]].
          * by apply Hcodec.
          * by eapply Hall.
      - unfold DeliverTx. rewrite Hty. run. eexists _, _.
        split; [done |]. by apply Validators_returns_iff. }
    destruct Hstep as (r & app1 & Hr & Hret1).
    destruct (IH Htxs app1 Hret1) as (rs & app' & vs & Hrs & Hvs).
    exists (r :: rs), app', vs. unfold mbind, M_bind. by rewrite Hr, Hrs.
Qed.

Lemma validator_txs_keep_enumeration_witness :
  ∃ rs app' vs,
    @DeliverTxs Sample.externals
      [sample_add_tx; sample_unknown_tx; sample_remove_tx] sample_app
    = Return rs app'
    ∧ @Validators Sample.externals app' = Return vs app'.
Proof.
  apply (@validator_txs_keep_enumeration Sample.externals).
  - repeat (apply Forall_cons; split;
      [split; [first [by left | by right] |];
       intros bz Hbz; vm_compute in Hbz; injection Hbz as <-;
       eexists; vm_compute; reflexivity |]).
    apply Forall_nil_2.
  - exists []. vm_compute. reflexivity.
Defined.

(** ** The order of the enumeration *)

Lemma Ascii_compare_N (a b : ascii) :
  Ascii.compare a b = N.compare (N_of_ascii a) (N_of_ascii b).
Proof. reflexivity. Qed.

Lemma String_leb_trans (a b c : string) :
  String.leb a b = true → String.leb b c = true → String.leb a c = true.
Proof.
  unfold String.leb. revert b c.
  induction a as [|x a IH]; intros [|y b] [|z c]; simpl; try done.
  rewrite !Ascii_compare_N.
  destruct (N.compare_spec (N_of_ascii x) (N_of_ascii y)) as [Hxy|Hxy|Hxy],
    (N.compare_spec (N_of_ascii y) (N_of_ascii z)) as [Hyz|Hyz|Hyz],
    (N.compare_spec (N_of_ascii x) (N_of_ascii z)) as [Hxz|Hxz|Hxz];
    try done; try lia.
  apply IH.
Qed.

Local Instance key_le_total : Total iavl.key_le.
Proof. intros a b. apply String.leb_total. Qed.

Local Instance key_le_trans : Transitive iavl.key_le.
Proof. intros a b c. apply String_leb_trans. Qed.

(** The pairs of the tree come in strictly ascending key order. *)
Lemma items_strictly_sorted (t : iavl.VersionedTree) :
  StronglySorted (λ a b : string * string, String.ltb a.1 b.1 = true)
    (iavl.items t).
Proof.
  assert (Hs : StronglySorted iavl.key_le (iavl.items t)).
  { unfold iavl.items.
    apply (StronglySorted_merge_sort iavl.key_le (Transitive0 := key_le_trans)
             (Total0 := key_le_total)). }
  assert (Hnd : NoDup (iavl.items t).*1).
  { unfold iavl.items. rewrite merge_sort_Permutation.
    apply NoDup_fst_map_to_list. }
  induction Hs as [|a l Hs IH Hall]; [constructor |].
  rewrite fmap_cons in Hnd. apply NoDup_cons in Hnd as [Hfresh Hnd].
  constructor; [by apply IH |].
  apply Forall_forall. intros b Hb.
  rewrite Forall_forall in Hall. specialize (Hall b Hb).
  unfold iavl.key_le, String.leb in Hall. unfold String.ltb.
  destruct (String.compare a.1 b.1) eqn:Hcmp; [|done | done].
  apply String.compare_eq_iff in Hcmp. exfalso. apply Hfresh.
  rewrite Hcmp. by apply list_elem_of_fmap_2.
Qed.

Lemma decode_validators_Forall2 `{Externals} kvs vs :
  decode_validators kvs = inl vs →
  Forall2 (λ (kv : string * string) r, ReadMessage kv.2 = inl r)
    (filter (λ kv : string * string, isValidatorTx kv.1 = true) kvs) vs.
Proof.
  revert vs. induction kvs as [|[k v] kvs IH]; intros vs Hdec; simpl in Hdec.
  - injection Hdec as <-. constructor.
  - rewrite filter_cons. simpl. destruct (isValidatorTx k) eqn:Hpre.
    + destruct (ReadMessage v) as [r|] eqn:Hr; [|done].
      destruct (decode_validators kvs) as [vs'|]; [|done].
      injection Hdec as <-. rewrite decide_True by done.
      constructor; [done | by apply IH].
    + rewrite decide_False by done. by apply IH.
Qed.

Lemma StronglySorted_filter_list {A} (R : relation A) (P : A → Prop)
    `{∀ x, Decision (P x)} (l : list A) :
  StronglySorted R l → StronglySorted R (filter P l).
Proof.
  induction 1 as [|a l Hs IH Hall]; [constructor |].
  rewrite filter_cons. destruct (decide (P a)); [|done].
  constructor; [done |].
  apply Forall_forall. intros b Hb%list_elem_of_filter.
  rewrite Forall_forall in Hall. apply Hall. tauto.
Qed.

(** X22. What [Validators] returns is fully determined by the store: the
    records are the decoded values of exactly the pairs whose key has the
    validator prefix, one per key, listed in strictly ascending order of
    the keys. *)
Theorem Validators_sorted_by_key `{Externals}
    (app : PersistentApplication) (vs : list types.Validator)
    (app' : PersistentApplication) :
  Validators app = Return vs app' →
  ∃ kvs : list (string * string),
    StronglySorted (λ a b, String.ltb a.1 b.1 = true) kvs
    ∧ (∀ k v, (k, v) ∈ kvs ↔
              iavl.tree (state app) !! k = Some v ∧ isValidatorTx k = true)
    ∧ Forall2 (λ kv r, ReadMessage kv.2 = inl r) kvs vs.
Proof.
  rewrite Validators_decode.
  destruct (decode_validators _) as [vs'|] eqn:Hdec; [|done].
  intros [= <- <-].
  exists (filter (λ kv : string * string, isValidatorTx kv.1 = true)
            (iavl.items (state app))).
  split; [|split].
  - apply StronglySorted_filter_list, items_strictly_sorted.
  - intros k v. rewrite list_elem_of_filter, elem_of_items. simpl. tauto.
  - by apply decode_validators_Forall2.
Qed.

Lemma Validators_sorted_by_key_witness :
  ∃ kvs : list (string * string),
    StronglySorted (λ a b, String.ltb a.1 b.1 = true) kvs
    ∧ Forall2 (λ kv r, @ReadMessage Sample.externals kv.2 = inl r) kvs
        [types.mkValidator "K" 5].
Proof.
  destruct (@Validators_sorted_by_key Sample.externals sample_app_added
              [types.mkValidator "K" 5] sample_app_added)
    as (kvs & Hs & _ & Hdec).
  - vm_compute. reflexivity.
  - exists kvs. split; [exact Hs | exact Hdec].
Defined.

Lemma decode_validators_filter `{Externals} (kvs : list (string * string)) :
  decode_validators
    (filter (λ kv : string * string, isValidatorTx kv.1 = true) kvs)
  = decode_validators kvs.
Proof.
  induction kvs as [|[k v] kvs IH]; [done |].
  rewrite filter_cons. simpl. destruct (isValidatorTx k) eqn:Hpre.
  - rewrite decide_True by done. simpl. by rewrite Hpre, IH.
  - by rewrite decide_False by done.
Qed.

Lemma prefixed_items_eq `{Externals} (t1 t2 : iavl.VersionedTree) :
  (∀ k, isValidatorTx k = true → iavl.tree t1 !! k = iavl.tree t2 !! k) →
  filter (λ kv : string * string, isValidatorTx kv.1 = true) (iavl.items t1)
  = filter (λ kv : string * string, isValidatorTx kv.1 = true)
      (iavl.items t2).
Proof.
  intros Hagree.
  apply (StronglySorted_unique_strong
           (λ a b : string * string, String.ltb a.1 b.1 = true)).
  - intros a b _ _. unfold String.ltb.
    rewrite (String.compare_antisym b.1 a.1).
    by destruct (String.compare a.1 b.1).
  - apply StronglySorted_filter_list, items_strictly_sorted.
  - apply StronglySorted_filter_list, items_strictly_sorted.
  - apply NoDup_Permutation.
    + apply NoDup_filter. unfold iavl.items.
      rewrite merge_sort_Permutation. apply NoDup_map_to_list.
    + apply NoDup_filter. unfold iavl.items.
      rewrite merge_sort_Permutation. apply NoDup_map_to_list.
    + intros [k v]. rewrite !list_elem_of_filter, !elem_of_items. simpl.
      split; intros [Hpre Hkv]; (split; [done |]);
        [rewrite <- Hagree by done | rewrite Hagree by done]; done.
Qed.

(** X23. [Validators] depends on the keys with the validator prefix only:
    on two applications whose stores agree on every such key it gives the
    same list, or the same panic. Writes under other keys do not change
    the enumeration. *)
Theorem Validators_reads_prefixed_keys_only `{Externals}
    (app1 app2 : PersistentApplication) :
  (∀ k, isValidatorTx k = true →
        iavl.tree (state app1) !! k = iavl.tree (state app2) !! k) →
  Validators app1 =
  match Validators app2 with
  | Return vs _ => Return vs app1
  | Panic msg => Panic msg
  end.
Proof.
  intros Hagree. rewrite !Validators_decode.
  rewrite <- (decode_validators_filter (iavl.items (state app1))).
  rewrite <- (decode_validators_filter (iavl.items (state app2))).
  rewrite (prefixed_items_eq _ _ Hagree).
  by destruct (decode_validators _).
Qed.

Lemma Validators_reads_prefixed_keys_only_witness :
  ∃ app', @DeliverTx Sample.externals "account|||Z/9" sample_app_added
          = Return ok_response app'
    ∧ @Validators Sample.externals app'
      = Return [types.mkValidator "K" 5] app'.
Proof.
  assert (Hrun : @DeliverTx Sample.externals "account|||Z/9" sample_app_added
    = Return ok_response
        (with_state (iavl.Set_ "account:Z" "9") sample_app_added))
    by (vm_compute; reflexivity).
  eexists. split; [exact Hrun |].
  rewrite (@Validators_reads_prefixed_keys_only Sample.externals _
             sample_app_added).
  - vm_compute. reflexivity.
  - intros k Hpre. simpl. apply lookup_insert_ne. intros <-.
    vm_compute in Hpre. discriminate Hpre.
Defined.
